(** * tensorboard-plotter: smoothing, aggregation and the legend toggle

    A shallow embedding of [src/tensorboard_plotter/plot.py].

    Conventions of the model.
    - Python floats are exact rationals ([Q]); equality of computed values is
      [Qeq].  Rounding, overflow and NaN samples of binary64 are outside the
      model; the literal [1e-4] is [1 # 10000] and [0.3] is [3 # 10].
    - An exception is a value of [exn]; a function that may raise returns
      [result A].
    - The file system below [log_dir] and the scalars an [EventAccumulator]
      reads from a run directory are an explicit argument ([FileSystem]).
    - A matplotlib line is a record in the list of lines of the axes; a line
      handle is its position in that list, so two handles alias the same
      mutable line exactly when they are equal.
    - Axis labels, title, grid, picker radius and layout calls have no effect
      on the data below and are left out. *)

From Stdlib Require Import QArith Qminmax Lqa Qfield ZArith Lia String Ascii.
From Stdlib Require Import DecimalString Qround Qabs Qpower.
From Stdlib Require Import Sorting.Sorted.
From stdpp Require Import base list.

Open Scope Q_scope.
Open Scope string_scope.
Open Scope list_scope.

(** ** Exceptions *)

Inductive exn : Set :=
| OSError      (* os.listdir on a path that is not a directory *)
| KeyError     (* a DataFrame column that does not exist *)
| ValueError   (* pandas: "alpha must satisfy: 0 < alpha <= 1" *)
| IndexError   (* list index out of range *).

Definition result (A : Type) : Type := (exn + A)%type.

Definition raise {A : Type} (e : exn) : result A := inl e.
Definition ret {A : Type} (a : A) : result A := inr a.
Definition bind {A B : Type} (m : result A) (k : A -> result B) : result B :=
  match m with
  | inl e => inl e
  | inr a => k a
  end.

Notation "x <- m ;; k" := (bind m (fun x => k))
  (at level 100, m at next level, right associativity).

(** ** Rational helpers *)

Definition Qltb (a b : Q) : bool := negb (Qle_bool b a).

Definition Qsum (l : list Q) : Q := fold_right Qplus 0 l.

Fixpoint Qpow (q : Q) (n : nat) : Q :=
  match n with
  | O => 1
  | S m => q * Qpow q m
  end.


(** ** binary64 arithmetic

    A finite binary64 number is a rational.  The result of an operation is
    its exact value rounded to the nearest binary64 number, the one with the
    even significand of two nearest, or is not finite. *)

(** [2^k] *)
Definition pow2 (k : Z) : Q := 2 ^ k.

(** For [x > 0], the exponent [e] with [2^e <= x < 2^(e+1)]. *)
Definition floor_log2 (x : Q) : Z :=
  let e := (Z.log2 (Qnum x) - Z.log2 (Zpos (Qden x)))%Z in
  if Qle_bool (pow2 e) x then e else (e - 1)%Z.

(** The nearest integer, the even one of two nearest. *)
Definition round_half_even (q : Q) : Z :=
  let f := Qfloor q in
  match Qcompare (q - inject_Z f) (1 # 2) with
  | Lt => f
  | Gt => (f + 1)%Z
  | Eq => if Z.even f then f else (f + 1)%Z
  end.

(** The exponent of the unit in the last place of the binary64 numbers next
    to [x >= 0]: 53 significant bits, and no unit below [2^-1074]. *)
Definition ulp_exponent (x : Q) : Z := Z.max (floor_log2 x - 52) (-1074).

(** [x >= 0] rounded to the nearest multiple of its unit in the last
    place. *)
Definition round_magnitude (x : Q) : Q :=
  let k := ulp_exponent x in
  inject_Z (round_half_even (x / pow2 k)) * pow2 k.

(** [x] rounded to binary64, with no bound on the exponent from above. *)
Definition round_binary64 (x : Q) : Q :=
  Qred (if Qle_bool 0 x then round_magnitude x else - round_magnitude (- x)).

(** The largest finite binary64 number, [(2^53 - 1) * 2^971]. *)
Definition binary64_max : Q := inject_Z ((2 ^ 53 - 1) * 2 ^ 971).

(** The binary64 result of an operation whose exact value is [x]; [None]
    when the result overflows to an infinity. *)
Definition binary64 (x : Q) : option Q :=
  let r := round_binary64 x in
  if Qle_bool (Qabs r) binary64_max then Some r else None.

(** ** Samples and data frames *)

(** One TensorBoard scalar event; the columns of the DataFrame built from a
    list of them are [wall_time], [step], [value]. *)
Record ScalarEvent : Set := {
  wall_time : Q;
  step : Z;
  value : Q
}.

(** A DataFrame with a RangeIndex, as the list of its rows.  [pd.DataFrame()]
    is the empty list. *)
Abbreviation DataFrame := (list ScalarEvent).

Definition df_empty (df : DataFrame) : bool :=
  match df with
  | [] => true
  | _ :: _ => false
  end.

(** [df["value"]] *)
Definition value_column (df : DataFrame) : list Q := map value df.

(** [df["value"] = vs] for a series [vs] on the same RangeIndex. *)
Definition set_value_column (df : DataFrame) (vs : list Q) : DataFrame :=
  zip_with (fun r v => {| wall_time := wall_time r; step := step r; value := v |})
           df vs.

(** [df[name]]: only the three columns exist. *)
Definition column (df : DataFrame) (name : string) : result (list Q) :=
  if String.eqb name "wall_time" then ret (map wall_time df)
  else if String.eqb name "step" then ret (map (fun r => inject_Z (step r)) df)
  else if String.eqb name "value" then ret (map value df)
  else raise KeyError.

(** ** Smoothing Engine: pandas' [Series.ewm(alpha=a).mean()]

    The recurrence by which pandas evaluates the exponentially weighted mean
    with its defaults ([adjust=True], [ignore_na=False], [min_periods=0]) on a
    series without missing values.  The state is [(weighted, old_wt)]; with
    [adjust=True] the new weight [new_wt] is [1].  pandas leaves [weighted]
    alone when it already equals the current sample. *)

Definition ewm_step (old_wt_factor new_wt : Q) (st : Q * Q) (cur : Q) : Q * Q :=
  let '(weighted, old_wt) := st in
  let old_wt := old_wt * old_wt_factor in
  let weighted :=
    if Qeq_bool weighted cur then weighted
    else (old_wt * weighted + new_wt * cur) / (old_wt + new_wt) in
  (weighted, old_wt + new_wt).

Fixpoint ewm_states (old_wt_factor new_wt : Q) (st : Q * Q) (vals : list Q)
  : list (Q * Q) :=
  match vals with
  | [] => []
  | cur :: rest =>
      let st' := ewm_step old_wt_factor new_wt st cur in
      st' :: ewm_states old_wt_factor new_wt st' rest
  end.


(** [pd.Series(vals).ewm(alpha=alpha).mean()]; the constructor rejects a
    smoothing factor outside (0, 1]. *)
Definition ewm_mean (alpha : Q) (vals : list Q) : result (list Q) :=
  if Qle_bool alpha 0 || Qltb 1 alpha then raise ValueError
  else
    match vals with
    | [] => ret []
    | v0 :: rest => ret (v0 :: map fst (ewm_states (1 - alpha) 1 (v0, 1) rest))
    end.

(** ** Series Loader boundary *)

(** The events of one tag of a run.  A tag is listed by the accumulator only
    once an event has been stored for it, so a series has a first event. *)
Record ScalarSeries : Set := {
  first_event : ScalarEvent;
  more_events : list ScalarEvent
}.

Definition events (s : ScalarSeries) : list ScalarEvent :=
  first_event s :: more_events s.

(** What [EventAccumulator(run_path).Reload()] holds: tag and series. *)
Definition Scalars : Set := list (string * ScalarSeries).

Fixpoint assoc {A : Type} (k : string) (l : list (string * A)) : option A :=
  match l with
  | [] => None
  | (k', a) :: rest => if String.eqb k k' then Some a else assoc k rest
  end.

(** [_extract_and_smooth_metrics(self, run_path, alpha_i)], with the run's
    accumulated scalars in place of [run_path]. *)
Definition _extract_and_smooth_metrics (metric : string) (ea : Scalars) (alpha_i : Q)
  : result DataFrame :=
  match assoc metric ea with
  | None => ret []
  | Some series =>
      let df := events series in
      smoothed <- ewm_mean alpha_i (value_column df) ;;
      ret (set_value_column df smoothed)
  end.

(** ** The directory tree below [log_dir] *)

(** An entry of a version directory: a plain file with the text that
    reading it returns, or a run directory with the scalars its event files
    hold. *)
Inductive VersionChild : Set :=
| PlainFile (content : string)
| RunDir (ea : Scalars).

(** An entry of [log_dir]: something that is not a directory, or a version
    directory with its entries. *)
Inductive LogChild : Set :=
| OtherFile
| VersionDir (children : list (string * VersionChild)).

(** [os.listdir(path)] with what each name is; [None] where it raises. *)
Definition FileSystem : Set := string -> option (list (string * LogChild)).

(** [sorted(os.listdir(...))]: names in increasing code-point order. *)
Fixpoint insert_sorted {A : Type} (e : string * A) (l : list (string * A))
  : list (string * A) :=
  match l with
  | [] => [e]
  | e' :: rest =>
      if String.leb (fst e) (fst e') then e :: l else e' :: insert_sorted e rest
  end.

Definition sorted {A : Type} (l : list (string * A)) : list (string * A) :=
  fold_right insert_sorted [] l.

(** [str.strip()].  A text is held as its UTF-8 bytes.  The white space
    characters of Python ([str.isspace]) are U+0009 to U+000D, U+001C to
    U+0020, U+0085, U+00A0, U+1680, U+2000 to U+200A, U+2028, U+2029, U+202F,
    U+205F and U+3000; they are encoded in one, two or three bytes. *)
Definition is_space (c : ascii) : bool :=
  let n := nat_of_ascii c in
  ((9 <=? n)%nat && (n <=? 13)%nat) || ((28 <=? n)%nat && (n <=? 32)%nat).

(** U+0085 and U+00A0 *)
Definition is_space2 (c1 c2 : ascii) : bool :=
  let n1 := nat_of_ascii c1 in
  let n2 := nat_of_ascii c2 in
  (n1 =? 194)%nat && ((n2 =? 133)%nat || (n2 =? 160)%nat).

(** U+1680; U+2000 to U+200A, U+2028, U+2029, U+202F; U+205F; U+3000 *)
Definition is_space3 (c1 c2 c3 : ascii) : bool :=
  let n1 := nat_of_ascii c1 in
  let n2 := nat_of_ascii c2 in
  let n3 := nat_of_ascii c3 in
  ((n1 =? 225)%nat && (n2 =? 154)%nat && (n3 =? 128)%nat)
  || ((n1 =? 226)%nat && (n2 =? 128)%nat
      && (((128 <=? n3)%nat && (n3 <=? 138)%nat)
          || (n3 =? 168)%nat || (n3 =? 169)%nat || (n3 =? 175)%nat))
  || ((n1 =? 226)%nat && (n2 =? 129)%nat && (n3 =? 159)%nat)
  || ((n1 =? 227)%nat && (n2 =? 128)%nat && (n3 =? 128)%nat).

(** [s] without the white space characters it starts with; [sp2] and [sp3]
    recognise the characters of two and of three bytes. *)
Fixpoint strip_start (sp2 : ascii -> ascii -> bool)
  (sp3 : ascii -> ascii -> ascii -> bool) (s : string) : string :=
  match s with
  | EmptyString => s
  | String c1 r1 =>
      if is_space c1 then strip_start sp2 sp3 r1
      else
        match r1 with
        | EmptyString => s
        | String c2 r2 =>
            if sp2 c1 c2 then strip_start sp2 sp3 r2
            else
              match r2 with
              | EmptyString => s
              | String c3 r3 =>
                  if sp3 c1 c2 c3 then strip_start sp2 sp3 r3 else s
              end
        end
  end.

(** [str.lstrip()] *)
Definition lstrip (s : string) : string := strip_start is_space2 is_space3 s.

Definition string_rev (s : string) : string :=
  string_of_list_ascii (rev (list_ascii_of_string s)).

(** [str.rstrip()]: the same on the bytes read from the end. *)
Definition rstrip (s : string) : string :=
  string_rev
    (strip_start (fun c1 c2 => is_space2 c2 c1)
                 (fun c1 c2 c3 => is_space3 c3 c2 c1) (string_rev s)).

Definition strip (s : string) : string := rstrip (lstrip s).

(** ** The plotter object *)

Record TensorBoardPlotter : Set := {
  log_dir : string;
  x_axis : string;
  metric : string;
  alpha : Q;
  plot_mean_only : bool
}.

(** ** Version Aggregator: [_collect_version_data] *)

Record VersionData : Set := {
  alias : string;
  run_dataframes : list DataFrame
}.

(** The alias of a version: the stripped text of [folder_alias.txt] when it
    is a file, else the folder name. *)
Definition version_alias (version_name : string)
  (children : list (string * VersionChild)) : string :=
  match assoc "folder_alias.txt" children with
  | Some (PlainFile content) => strip content
  | _ => version_name
  end.

(** The inner loop over [sorted(os.listdir(version_path))]. *)
Fixpoint collect_runs (metric : string) (alpha_i : Q)
  (children : list (string * VersionChild)) : result (list DataFrame) :=
  match children with
  | [] => ret []
  | (_, PlainFile _) :: rest => collect_runs metric alpha_i rest
  | (_, RunDir ea) :: rest =>
      df <- _extract_and_smooth_metrics metric ea alpha_i ;;
      dfs <- collect_runs metric alpha_i rest ;;
      ret (if df_empty df then dfs else df :: dfs)
  end.

(** The outer loop over [sorted(os.listdir(self.log_dir))]. *)
Fixpoint collect_versions (metric : string) (alpha_i : Q)
  (entries : list (string * LogChild)) : result (list VersionData) :=
  match entries with
  | [] => ret []
  | (_, OtherFile) :: rest => collect_versions metric alpha_i rest
  | (version_name, VersionDir children) :: rest =>
      let alias := version_alias version_name children in
      run_dataframes <- collect_runs metric alpha_i (sorted children) ;;
      version_data <- collect_versions metric alpha_i rest ;;
      ret ({| alias := alias; run_dataframes := run_dataframes |} :: version_data)
  end.

Definition _collect_version_data (fs : FileSystem) (self : TensorBoardPlotter)
  (alpha_i : Q) : result (list VersionData) :=
  match fs (log_dir self) with
  | None => raise OSError
  | Some entries => collect_versions (metric self) alpha_i (sorted entries)
  end.

(** ** Render boundary: lines of the axes *)

Record Line2D : Set := {
  xdata : list Q;
  ydata : list Q;
  label : string;
  color : string;
  line_alpha : Q;
  linewidth : Q
}.

(** The lines drawn on the axes, in creation order. *)
Abbreviation Axes := (list Line2D).

(** [f"_child{n}"] *)
Definition child_label (n : nat) : string :=
  "_child" ++ NilEmpty.string_of_uint (Nat.to_uint n).

(** The label a line created with label [lbl] carries once it is child
    number [n] of the axes: [Axes.add_line] replaces an empty label. *)
Definition stored_label (n : nat) (lbl : string) : string :=
  if String.eqb lbl "" then child_label n else lbl.

(** [line.set_label(lbl)] *)
Definition set_label (lbl : string) (l : Line2D) : Line2D :=
  {| xdata := xdata l; ydata := ydata l; label := lbl; color := color l;
     line_alpha := line_alpha l; linewidth := linewidth l |}.

(** [(line,) = ax.plot(...)]: the new line is appended to the children of
    the axes, which are its lines, and its handle returned. *)
Definition ax_plot (ax : Axes) (l : Line2D) : Axes * nat :=
  (ax ++ [set_label (stored_label (length ax) (label l)) l], length ax).

(** [plt.rcParams["axes.prop_cycle"].by_key()["color"]]: a colour cycle has
    at least one colour. *)
Definition ColorCycle : Set := (string * list string)%type.

(** [colors[idx % len(colors)]] *)
Definition pick_color (colors : ColorCycle) (idx : nat) : string :=
  let cs := fst colors :: snd colors in
  nth (idx mod length cs) cs (fst colors).

(** ** Version Aggregator: the mean of a version *)

(** Row [i] of [pd.concat(all_runs_values, axis=1)]: the outer join on the
    RangeIndex leaves a cell missing where a run is shorter; these are the
    cells that are present. *)
Definition row_cells (cols : list (list Q)) (i : nat) : list Q :=
  omap (fun c : list Q => c !! i) cols.

Definition max_length (cols : list (list Q)) : nat :=
  fold_right Nat.max 0%nat (map (@length Q) cols).

(** The mean of the cells of a row that are present ([skipna=True]). *)
Definition mean_cells (cells : list Q) : Q :=
  Qsum cells / inject_Z (Z.of_nat (length cells)).

(** [pd.concat(all_runs_values, axis=1).mean(axis=1)] *)
Definition concat_mean (cols : list (list Q)) : list Q :=
  map (fun i => mean_cells (row_cells cols i)) (seq 0 (max_length cols)).

(** Lines 221-227 of [_plot_versions]: the mean values, then [x_mean] and
    [y_mean] cut to the shorter of [all_runs_x[-1]] and [mean_values]. *)
Definition version_mean (all_runs_values all_runs_x : list (list Q))
  : result (list Q * list Q) :=
  let mean_values := concat_mean all_runs_values in
  match last all_runs_x with
  | None => raise IndexError
  | Some x_last =>
      let min_len := Nat.min (length x_last) (length mean_values) in
      ret (take min_len x_last, take min_len mean_values)
  end.

(** ** [_plot_versions] *)

(** What the loop over the runs of one version carries along. *)
Record RunsState : Set := {
  rs_ax : Axes;
  runs_lines : list nat;
  all_runs_values : list (list Q);
  all_runs_x : list (list Q)
}.

(** Lines 192-194: no run line and no series collected yet. *)
Definition runs_init (ax : Axes) : RunsState :=
  {| rs_ax := ax; runs_lines := []; all_runs_values := []; all_runs_x := [] |}.

(** [for df in run_dataframes: ...] for the version at position [idx]. *)
Fixpoint plot_runs (self : TensorBoardPlotter) (colors : ColorCycle) (idx : nat)
  (dfs : list DataFrame) (st : RunsState) : result RunsState :=
  match dfs with
  | [] => ret st
  | df :: rest =>
      let min_len := Nat.min (length df) (length (value_column df)) in
      xs <- column df (x_axis self) ;;
      let x := take min_len xs in
      let y := take min_len (value_column df) in
      let '(ax, lines) :=
        if plot_mean_only self then (rs_ax st, runs_lines st)
        else
          let '(ax, line) :=
            ax_plot (rs_ax st)
              {| xdata := x; ydata := y; label := "";
                 color := pick_color colors idx;
                 line_alpha := 3 # 10; linewidth := 1 |} in
          (ax, runs_lines st ++ [line]) in
      plot_runs self colors idx rest
        {| rs_ax := ax; runs_lines := lines;
           all_runs_values := all_runs_values st ++ [y];
           all_runs_x := all_runs_x st ++ [x] |}
  end.

(** What the loop over the versions carries along. *)
Record PlotState : Set := {
  ps_ax : Axes;
  line_collections_main : list (list nat);
  line_collections_runs : list (list nat);
  legend_lines : list nat
}.

(** [for idx, vdata in enumerate(version_data): ...], from position [idx]. *)
Fixpoint plot_versions_from (self : TensorBoardPlotter) (colors : ColorCycle)
  (idx : nat) (version_data : list VersionData) (st : PlotState)
  : result PlotState :=
  match version_data with
  | [] => ret st
  | vdata :: rest =>
      rs <- plot_runs self colors idx (run_dataframes vdata)
              (runs_init (ps_ax st)) ;;
      let runs :=
        line_collections_runs st
          ++ [if plot_mean_only self then [] else runs_lines rs] in
      if (0 <? length (run_dataframes vdata))%nat then
        xy <- version_mean (all_runs_values rs) (all_runs_x rs) ;;
        let '(ax, mean_line) :=
          ax_plot (rs_ax rs)
            {| xdata := fst xy; ydata := snd xy; label := alias vdata;
               color := pick_color colors idx;
               line_alpha := 1; linewidth := 2 |} in
        plot_versions_from self colors (S idx) rest
          {| ps_ax := ax;
             line_collections_main := line_collections_main st ++ [[mean_line]];
             line_collections_runs := runs;
             legend_lines := legend_lines st ++ [mean_line] |}
      else
        plot_versions_from self colors (S idx) rest
          {| ps_ax := rs_ax rs;
             line_collections_main := line_collections_main st ++ [[]];
             line_collections_runs := runs;
             legend_lines := legend_lines st |}
  end.

Definition _plot_versions (self : TensorBoardPlotter) (colors : ColorCycle)
  (ax : Axes) (version_data : list VersionData) : result PlotState :=
  plot_versions_from self colors 0 version_data
    {| ps_ax := ax; line_collections_main := [];
       line_collections_runs := []; legend_lines := [] |}.

(** ** Toggle Controller: [get_on_legend_click] *)

(** The figure once [plot] has set it up: the lines of the axes, which the
    callback mutates, and the three lists its closure captured. *)
Record Figure : Set := {
  fig_lines : Axes;
  legend_lines_labels : list string;
  fig_main : list (list nat);
  fig_runs : list (list nat)
}.

(** [l.index(x)], [None] where Python raises [ValueError]. *)
Fixpoint index_of (x : string) (l : list string) : option nat :=
  match l with
  | [] => None
  | y :: rest => if String.eqb y x then Some 0%nat else S <$> index_of x rest
  end.

(** [x in l] *)
Definition contains (x : string) (l : list string) : bool :=
  existsb (String.eqb x) l.

(** [line.set_alpha(0 if line.get_alpha() > 0 else shown)] *)
Definition toggle_alpha (shown : Q) (l : Line2D) : Line2D :=
  {| xdata := xdata l; ydata := ydata l; label := label l; color := color l;
     line_alpha := if Qltb 0 (line_alpha l) then 0 else shown;
     linewidth := linewidth l |}.

(** [for line in handles: line.set_alpha(...)] *)
Definition toggle_lines (shown : Q) (handles : list nat) (ax : Axes) : Axes :=
  fold_left (fun ax h => alter (toggle_alpha shown) h ax) handles ax.

(** [on_legend_click(event)] with [event.artist.get_label()] as
    [artist_label]. *)
Definition on_legend_click (fig : Figure) (artist_label : string) : result Figure :=
  if contains artist_label (legend_lines_labels fig) then
    match index_of artist_label (legend_lines_labels fig) with
    | None => raise ValueError
    | Some line_index =>
        match fig_main fig !! line_index with
        | None => raise IndexError
        | Some main_lines =>
            run_lines <-
              match fig_runs fig with
              | [] => ret []
              | _ :: _ =>
                  match fig_runs fig !! line_index with
                  | None => raise IndexError
                  | Some r => ret r
                  end
              end ;;
            ret {| fig_lines :=
                     toggle_lines (3 # 10) run_lines
                       (toggle_lines 1 main_lines (fig_lines fig));
                   legend_lines_labels := legend_lines_labels fig;
                   fig_main := fig_main fig;
                   fig_runs := fig_runs fig |}
        end
    end
  else ret fig.

(** ** [plot] *)

(** [[l.get_label() for l in legend_lines]] *)
Definition labels_of (ax : Axes) (handles : list nat) : list string :=
  omap (fun h => label <$> ax !! h) handles.

(** The literal [1e-4]: the binary64 number nearest to [1/10000]. *)
Definition float_1e_4 : Q := Eval vm_compute in round_binary64 (1 # 10000).

(** Lines 312-314: the inverted smoothing factor handed to pandas; the
    subtraction is rounded to binary64. *)
Definition inverted_alpha (alpha : Q) : Q :=
  let alpha_i := round_binary64 (1 - alpha) in
  if Qeq_bool alpha_i 0 then float_1e_4 else alpha_i.

(** How a call of [plot] ends: an exception from [_collect_version_data],
    before [plt.subplots] has created the figure; an exception from
    [_plot_versions], raised while the lines are drawn; or the figure that is
    shown, with the click handler connected. *)
Inductive PlotOutcome : Set :=
| AbortedAtStartup (e : exn)
| AbortedWhileDrawing (e : exn)
| Shown (fig : Figure).

Definition plot (fs : FileSystem) (colors : ColorCycle) (self : TensorBoardPlotter)
  : PlotOutcome :=
  let alpha_i := inverted_alpha (alpha self) in
  match _collect_version_data fs self alpha_i with
  | inl e => AbortedAtStartup e
  | inr version_data =>
      match _plot_versions self colors [] version_data with
      | inl e => AbortedWhileDrawing e
      | inr st =>
          Shown {| fig_lines := ps_ax st;
                   legend_lines_labels := labels_of (ps_ax st) (legend_lines st);
                   fig_main := line_collections_main st;
                   fig_runs := line_collections_runs st |}
      end
  end.

(** ** The smoothing formula of the specification

    [smoothed[i] = (Σ_{k=0..i} (1-d)^(i-k) * value[k]) / (Σ_{k=0..i} (1-d)^(i-k))] *)

Definition spec_numerator (d : Q) (vals : list Q) (i : nat) : Q :=
  Qsum (map (fun k => Qpow (1 - d) (i - k) * nth k vals 0) (seq 0 (S i))).

Definition spec_denominator (d : Q) (i : nat) : Q :=
  Qsum (map (fun k => Qpow (1 - d) (i - k)) (seq 0 (S i))).

Definition spec_smoothed (d : Q) (vals : list Q) (i : nat) : Q :=
  spec_numerator d vals i / spec_denominator d i.

(** ** Predicates used in the statements *)

(** The handles of a collection are distinct and name lines of the axes
    drawn at display intensity [a]. *)
Definition handles_ok (a : Q) (ax : Axes) (hs : list nat) : Prop :=
  NoDup hs /\ Forall (fun h => exists l, ax !! h = Some l /\ line_alpha l = a) hs.

(** The collections of [_plot_versions] while it runs: mean lines at
    intensity 1, run lines at intensity 0.3, one entry of each per version
    seen, and no more legend lines than versions. *)
Definition plot_inv (st : PlotState) : Prop :=
  Forall (handles_ok 1 (ps_ax st)) (line_collections_main st)
  /\ Forall (handles_ok (3 # 10) (ps_ax st)) (line_collections_runs st)
  /\ length (line_collections_main st) = length (line_collections_runs st)
  /\ (length (legend_lines st) <= length (line_collections_main st))%nat.

(** The version has a run with data, so a mean line and a legend entry. *)
Definition has_data (v : VersionData) : bool :=
  (0 <? length (run_dataframes v))%nat.

(** Some run directory below [log_dir] holds the metric. *)
Definition run_has_metric (metric : string) (c : string * VersionChild) : bool :=
  match snd c with
  | RunDir ea => match assoc metric ea with Some _ => true | None => false end
  | PlainFile _ => false
  end.

Definition version_has_metric (metric : string) (e : string * LogChild) : bool :=
  match snd e with
  | VersionDir children => existsb (run_has_metric metric) children
  | OtherFile => false
  end.

Definition some_run_has_metric (metric : string) (entries : list (string * LogChild))
  : bool :=
  existsb (version_has_metric metric) entries.

(** [name] is one of the columns of a frame of scalar events. *)
Definition known_column (name : string) : bool :=
  String.eqb name "wall_time" || String.eqb name "step" || String.eqb name "value".

(** ** Concrete inputs *)

Definition sample (n : Z) (v : Q) : ScalarEvent :=
  {| wall_time := inject_Z (1700000000 + n); step := n; value := v |}.

Definition series_of (v0 : Q) (vs : list Q) : ScalarSeries :=
  {| first_event := sample 0 v0;
     more_events := imap (fun i v => sample (Z.of_nat (S i)) v) vs |}.

Definition frame_of (vs : list Q) : DataFrame :=
  imap (fun i v => sample (Z.of_nat i) v) vs.

Definition loss_run : Scalars := [("loss", series_of 4 [2; 3])].

(** The default colour cycle of matplotlib. *)
Definition default_colors : ColorCycle :=
  ("#1f77b4", ["#ff7f0e"; "#2ca02c"; "#d62728"; "#9467bd"; "#8c564b";
               "#e377c2"; "#7f7f7f"; "#bcbd22"; "#17becf"]).

Definition plotter_with_alpha (a : Q) : TensorBoardPlotter :=
  {| log_dir := "logs"; x_axis := "step"; metric := "loss"; alpha := a;
     plot_mean_only := false |}.

(** One version whose three runs hold 7, 5 and 9 samples of the metric. *)
Definition lengths_fs : FileSystem := fun path =>
  if String.eqb path "logs" then
    Some [("v1", VersionDir
             [("run_a", RunDir [("loss", series_of 1 (repeat 1 6))]);
              ("run_b", RunDir [("loss", series_of 100 (repeat 100 4))]);
              ("run_c", RunDir [("loss", series_of 3 (repeat 3 8))])])]
  else None.

(** A version without the metric, sorted ahead of a version that has it. *)
Definition empty_first_fs : FileSystem := fun path =>
  if String.eqb path "logs" then
    Some [("b", VersionDir [("run1", RunDir [("loss", series_of 4 [2; 3])])]);
          ("a_empty", VersionDir [("run1", RunDir [("accuracy", series_of 1 [])])])]
  else None.

(** A version without the metric, then two versions whose alias file gives
    both the label [X], then a version [z]. *)
Definition duplicate_alias_fs : FileSystem := fun path =>
  if String.eqb path "logs" then
    Some [("a_empty", VersionDir [("run1", RunDir [])]);
          ("x1", VersionDir [("folder_alias.txt", PlainFile "X");
                             ("run1", RunDir [("loss", series_of 1 [2])])]);
          ("x2", VersionDir [("folder_alias.txt", PlainFile "X
");
                             ("run1", RunDir [("loss", series_of 5 [6])])]);
          ("z", VersionDir [("run1", RunDir [("loss", series_of 8 [9])])])]
  else None.

(** A directory whose only run does not hold the metric. *)
Definition no_metric_fs : FileSystem := fun path =>
  if String.eqb path "logs" then
    Some [("v1", VersionDir [("run1", RunDir [("accuracy", series_of 1 [2])])])]
  else None.

(** * Further definitions: what the loops produce *)

(** ** What [_plot_versions] draws for a version *)

(** The x values of a frame: its [x_axis] column, empty when the frame has
    no such column. *)
Definition x_values (self : TensorBoardPlotter) (df : DataFrame) : list Q :=
  match column df (x_axis self) with
  | inr xs => xs
  | inl _ => []
  end.

(** The line of one run of the version at position [k], created without
    label as child number [h] of the axes. *)
Definition run_line (self : TensorBoardPlotter) (colors : ColorCycle) (k : nat)
  (h : nat) (df : DataFrame) : Line2D :=
  {| xdata := x_values self df; ydata := value_column df; label := child_label h;
     color := pick_color colors k; line_alpha := 3 # 10; linewidth := 1 |}.

(** The lines of the runs [dfs] of the version at position [k], created in
    order from child number [n] of the axes on. *)
Definition run_lines_from (self : TensorBoardPlotter) (colors : ColorCycle)
  (k n : nat) (dfs : list DataFrame) : list Line2D :=
  zip_with (run_line self colors k) (seq n (length dfs)) dfs.

(** [l] is the mean line of version [v] at position [k], created as child
    number [h] of the axes. *)
Definition mean_line_of (self : TensorBoardPlotter) (colors : ColorCycle) (k : nat)
  (v : VersionData) (h : nat) (l : Line2D) : Prop :=
  label l = stored_label h (alias v) /\ color l = pick_color colors k
  /\ line_alpha l = 1 /\ linewidth l = 2
  /\ version_mean (map value_column (run_dataframes v))
                  (map (x_values self) (run_dataframes v))
     = inr (xdata l, ydata l).

(** The handles [rs] and [ms] are the run lines and the mean line that
    [_plot_versions] draws on [ax] for version [v] at position [k]; every
    frame of the version has the [x_axis] column. *)
Definition version_drawn (self : TensorBoardPlotter) (colors : ColorCycle)
  (ax : Axes) (k : nat) (v : VersionData) (ms rs : list nat) : Prop :=
  Forall (fun df => column df (x_axis self) = inr (x_values self df))
         (run_dataframes v)
  /\ (if plot_mean_only self then rs = []
      else Forall2 (fun h df => ax !! h = Some (run_line self colors k h df))
                   rs (run_dataframes v))
  /\ (if has_data v
      then exists h l, ms = [h] /\ ax !! h = Some l
                       /\ mean_line_of self colors k v h l
      else ms = []).

(** The state of the loop of [_plot_versions] once the versions [done] have
    been drawn. *)
Definition drawn_inv (self : TensorBoardPlotter) (colors : ColorCycle)
  (done : list VersionData) (st : PlotState) : Prop :=
  length (line_collections_main st) = length done
  /\ length (line_collections_runs st) = length done
  /\ concat (zip_with app (line_collections_runs st) (line_collections_main st))
     = seq 0 (length (ps_ax st))
  /\ forall k v ms rs,
       done !! k = Some v ->
       line_collections_main st !! k = Some ms ->
       line_collections_runs st !! k = Some rs ->
       version_drawn self colors (ps_ax st) k v ms rs.

(** The number of lines [_plot_versions] draws for a version: one per run
    unless only the mean is plotted, and the mean line if there is a run. *)
Definition lines_of_version (self : TensorBoardPlotter) (v : VersionData) : nat :=
  ((if plot_mean_only self then 0 else length (run_dataframes v))
   + (if has_data v then 1 else 0))%nat.

Definition lines_of_versions (self : TensorBoardPlotter)
  (version_data : list VersionData) : nat :=
  fold_right (fun v n => (lines_of_version self v + n)%nat) 0%nat version_data.

(** The version directories of a listing, with their entries. *)
Definition version_dirs (entries : list (string * LogChild))
  : list (string * list (string * VersionChild)) :=
  omap (fun e => match snd e with
                 | VersionDir children => Some (fst e, children)
                 | OtherFile => None
                 end) entries.

(** Version [v] is what [_collect_version_data] returns for the directory
    [dir]: the alias of the directory and one frame with rows per run
    directory that holds the metric. *)
Definition collected_from (metric : string) (v : VersionData)
  (dir : string * list (string * VersionChild)) : Prop :=
  alias v = version_alias (fst dir) (snd dir)
  /\ length (run_dataframes v)
     = length (List.filter (run_has_metric metric) (snd dir))
  /\ Forall (fun df : DataFrame => df <> []) (run_dataframes v).

(** ** A session of pick events *)

(** The callback runs once per event, in order, each time on the figure the
    event before left. *)
Fixpoint clicks (artist_labels : list string) (fig : Figure) : result Figure :=
  match artist_labels with
  | [] => ret fig
  | artist_label :: rest =>
      fig' <- on_legend_click fig artist_label ;; clicks rest fig'
  end.

(** One flag per position of the collections: an event whose label is in
    the legend flips the flag at the position of the label in the legend. *)
Fixpoint visibility (legend artist_labels : list string) (vis : list bool)
  : list bool :=
  match artist_labels with
  | [] => vis
  | artist_label :: rest =>
      visibility legend rest
        (match index_of artist_label legend with
         | Some i => alter negb i vis
         | None => vis
         end)
  end.

(** The lines of the figure are displayed as the flags say: at a position
    whose flag is set the mean line is opaque and the run lines dim, at a
    position whose flag is cleared all of them are transparent. *)
Definition shown_as (fig : Figure) (vis : list bool) : Prop :=
  forall (i : nat) (ms rs : list nat) (b : bool),
    fig_main fig !! i = Some ms -> fig_runs fig !! i = Some rs ->
    vis !! i = Some b ->
    handles_ok (if b then 1 else 0) (fig_lines fig) ms
    /\ handles_ok (if b then 3 # 10 else 0) (fig_lines fig) rs.

(** Two figures with the same legend and the same collections. *)
Definition same_layout (fig fig' : Figure) : Prop :=
  legend_lines_labels fig' = legend_lines_labels fig
  /\ fig_main fig' = fig_main fig
  /\ fig_runs fig' = fig_runs fig.

(** Two lines that differ at most in their display intensity. *)
Definition same_but_alpha (l l' : Line2D) : Prop :=
  xdata l' = xdata l /\ ydata l' = ydata l /\ label l' = label l
  /\ color l' = color l /\ linewidth l' = linewidth l.

(** Every position has its two collections, no handle occurs twice in
    them, and every legend entry has a position. *)
Definition well_laid_out (fig : Figure) : Prop :=
  length (fig_main fig) = length (fig_runs fig)
  /\ NoDup (concat (zip_with app (fig_runs fig) (fig_main fig)))
  /\ (length (legend_lines_labels fig) <= length (fig_main fig))%nat.

(** The name of [a] is at most the name of [b] in code-point order. *)
Definition name_le {A : Type} (a b : string * A) : Prop :=
  String.leb (fst a) (fst b) = true.

(** ** White space around an alias *)






(** ** More concrete inputs *)


(** A version without data, then a version with runs of 3 and 2 samples. *)
Definition sample_versions : list VersionData :=
  [{| alias := "a"; run_dataframes := [] |};
   {| alias := "b"; run_dataframes := [frame_of [4; 2; 3]; frame_of [1; 1]] |}].

(** The listing of [empty_first_fs] in another order. *)
Definition empty_first_fs_reordered : FileSystem := fun path =>
  if String.eqb path "logs" then
    Some [("a_empty", VersionDir [("run1", RunDir [("accuracy", series_of 1 [])])]);
          ("b", VersionDir [("run1", RunDir [("loss", series_of 4 [2; 3])])])]
  else None.

(** A plotter whose [x_axis] is not a field of the samples. *)
Definition plotter_by_epoch : TensorBoardPlotter :=
  {| log_dir := "logs"; x_axis := "epoch"; metric := "loss"; alpha := 0;
     plot_mean_only := false |}.

Definition plotter_mean_only : TensorBoardPlotter :=
  {| log_dir := "logs"; x_axis := "step"; metric := "loss"; alpha := 0;
     plot_mean_only := true |}.

(** * Proofs *)

(** ** Powers of two *)

Lemma pow2_pos (k : Z) : 0 < pow2 k.
Proof. apply Qpower_0_lt. reflexivity. Qed.

Lemma pow2_add (j k : Z) : pow2 (j + k) == pow2 j * pow2 k.
Proof. apply Qpower_plus. discriminate. Qed.

Lemma pow2_le (j k : Z) : (j <= k)%Z -> pow2 j <= pow2 k.
Proof. intros H. apply Qpower_le_compat_l; [exact H | discriminate]. Qed.

Lemma pow2_lt (j k : Z) : (j < k)%Z -> pow2 j < pow2 k.
Proof. intros H. apply Qpower_lt_compat_l; [exact H | reflexivity]. Qed.

Lemma pow2_lt_inv (j k : Z) : pow2 j < pow2 k -> (j < k)%Z.
Proof. intros H. apply (Qpower_lt_compat_l_inv 2); [exact H | reflexivity]. Qed.

Lemma pow2_Z (k : Z) : (0 <= k)%Z -> pow2 k == inject_Z (2 ^ k).
Proof. intros H. unfold pow2. by rewrite Zpower_Qpower. Qed.

Lemma pow2_0 : pow2 0 == 1.
Proof. reflexivity. Qed.

Lemma pow2_succ (k : Z) : pow2 (k + 1) == 2 * pow2 k.
Proof. rewrite pow2_add. change (pow2 1) with 2. ring. Qed.

Lemma pow2_pred (k : Z) : pow2 (k - 1) == (1 # 2) * pow2 k.
Proof.
  replace k with ((k - 1) + 1)%Z at 2 by lia. rewrite pow2_succ. field.
Qed.

(** ** The exponent of a positive number *)

Lemma floor_log2_spec (x : Q) :
  0 < x -> pow2 (floor_log2 x) <= x < pow2 (floor_log2 x + 1).
Proof.
  intros Hx. unfold floor_log2.
  destruct x as [n d]. cbn [Qnum Qden].
  assert (Hn : (0 < n)%Z).
  { unfold Qlt in Hx. cbn in Hx. lia. }
  pose proof (Z.log2_spec n Hn) as [Hn1 Hn2].
  pose proof (Z.log2_spec (Z.pos d) (Pos2Z.is_pos d)) as [Hd1 Hd2].
  pose proof (Z.log2_nonneg n) as Ha. pose proof (Z.log2_nonneg (Z.pos d)) as Hb.
  set (a := Z.log2 n) in *. set (b := Z.log2 (Z.pos d)) in *.
  assert (Hxd : n # d == inject_Z n / inject_Z (Z.pos d)) by apply Qmake_Qdiv.
  assert (Hdpos : 0 < inject_Z (Z.pos d)) by reflexivity.
  assert (Hlow : pow2 (a - b - 1) < n # d).
  { rewrite Hxd. apply Qlt_shift_div_l; [exact Hdpos|].
    apply Qlt_le_trans with (pow2 (a - b - 1) * pow2 (b + 1)).
    - apply Qmult_lt_l; [apply pow2_pos|].
      rewrite pow2_Z by lia. rewrite <- Zlt_Qlt. replace (b + 1)%Z with (Z.succ b) by lia.
      exact Hd2.
    - rewrite <- pow2_add. replace (a - b - 1 + (b + 1))%Z with a by lia.
      rewrite pow2_Z by lia. by rewrite <- Zle_Qle. }
  assert (Hhigh : n # d < pow2 (a - b + 1)).
  { rewrite Hxd. apply Qlt_shift_div_r; [exact Hdpos|].
    apply Qlt_le_trans with (pow2 (a - b + 1) * pow2 b).
    - rewrite <- pow2_add. replace (a - b + 1 + b)%Z with (Z.succ a) by lia.
      rewrite pow2_Z by lia. by rewrite <- Zlt_Qlt.
    - apply Qmult_le_l; [apply pow2_pos|].
      rewrite pow2_Z by lia. by rewrite <- Zle_Qle. }
  destruct (Qle_bool (pow2 (a - b)) (n # d)) eqn:E.
  - apply Qle_bool_iff in E. split; assumption.
  - assert (Hlt : n # d < pow2 (a - b)).
    { apply Qnot_le_lt. intros H. apply Qle_bool_iff in H. congruence. }
    split; [by apply Qlt_le_weak|].
    by replace (a - b - 1 + 1)%Z with (a - b)%Z by lia.
Qed.


Lemma floor_log2_le (x y : Q) : 0 < x -> x <= y -> (floor_log2 x <= floor_log2 y)%Z.
Proof.
  intros Hx Hxy.
  assert (Hy : 0 < y) by (eapply Qlt_le_trans; eassumption).
  destruct (floor_log2_spec x Hx) as [H1 _], (floor_log2_spec y Hy) as [_ H2].
  assert (floor_log2 x < floor_log2 y + 1)%Z; [|lia].
  apply pow2_lt_inv. eapply Qle_lt_trans; [exact H1|].
  eapply Qle_lt_trans; eassumption.
Qed.

(** ** Rounding to an integer *)

Lemma round_half_even_cases (q : Q) :
  round_half_even q = Qfloor q /\ q - inject_Z (Qfloor q) <= 1 # 2
  \/ round_half_even q = (Qfloor q + 1)%Z /\ 1 # 2 <= q - inject_Z (Qfloor q).
Proof.
  unfold round_half_even.
  destruct (Qcompare_spec (q - inject_Z (Qfloor q)) (1 # 2)) as [H|H|H].
  - destruct (Z.even (Qfloor q)); [left | right]; split; try reflexivity;
      rewrite H; apply Qle_refl.
  - left. split; [reflexivity | by apply Qlt_le_weak].
  - right. split; [reflexivity | by apply Qlt_le_weak].
Qed.

Lemma inject_Z_succ (z : Z) : inject_Z (z + 1) == inject_Z z + 1.
Proof. rewrite inject_Z_plus. reflexivity. Qed.

Lemma round_half_even_near (q : Q) :
  q - (1 # 2) <= inject_Z (round_half_even q) <= q + (1 # 2).
Proof.
  pose proof (Qfloor_le q) as H1. pose proof (Qlt_floor q) as H2.
  rewrite inject_Z_succ in H2.
  destruct (round_half_even_cases q) as [[-> H]|[-> H]];
    rewrite ?inject_Z_succ; split; lra.
Qed.

Lemma round_half_even_le (q : Q) (n : Z) :
  q <= inject_Z n -> (round_half_even q <= n)%Z.
Proof.
  intros H. pose proof (Qfloor_le q) as H1. pose proof (Qlt_floor q) as H2.
  rewrite inject_Z_succ in H2.
  destruct (round_half_even_cases q) as [[-> H3]|[-> H3]].
  - rewrite Zle_Qle. lra.
  - assert (Hlt : inject_Z (Qfloor q) < inject_Z n) by lra.
    rewrite <- Zlt_Qlt in Hlt. lia.
Qed.

Lemma round_half_even_ge (q : Q) (n : Z) :
  inject_Z n <= q -> (n <= round_half_even q)%Z.
Proof.
  intros H. pose proof (Qfloor_le q) as H1. pose proof (Qlt_floor q) as H2.
  assert (Hn : (n <= Qfloor q)%Z).
  { rewrite <- (Qfloor_Z n). by apply Qfloor_resp_le. }
  destruct (round_half_even_cases q) as [[-> H3]|[-> H3]]; lia.
Qed.

Lemma round_half_even_Z (n : Z) : round_half_even (inject_Z n) = n.
Proof.
  apply Z.le_antisymm.
  - apply round_half_even_le, Qle_refl.
  - apply round_half_even_ge, Qle_refl.
Qed.

Lemma round_half_even_mono (p q : Q) :
  p <= q -> (round_half_even p <= round_half_even q)%Z.
Proof.
  intros Hpq.
  pose proof (Qfloor_resp_le _ _ Hpq) as Hf.
  destruct (Z.eq_dec (Qfloor p) (Qfloor q)) as [E|E].
  - unfold round_half_even. rewrite E.
    destruct (Qcompare_spec (p - inject_Z (Qfloor q)) (1 # 2)) as [H|H|H];
      destruct (Qcompare_spec (q - inject_Z (Qfloor q)) (1 # 2)) as [H'|H'|H'];
      try lia; try lra; destruct (Z.even (Qfloor q)); lia.
  - pose proof (Qfloor_le q) as H1.
    assert (Hle : (round_half_even p <= Qfloor q)%Z).
    { destruct (round_half_even_cases p) as [[-> _]|[-> _]]; lia. }
    assert (Hge : (Qfloor q <= round_half_even q)%Z).
    { destruct (round_half_even_cases q) as [[-> _]|[-> _]]; lia. }
    lia.
Qed.

Global Instance round_half_even_comp : Proper (Qeq ==> eq) round_half_even.
Proof.
  intros p q H. apply Z.le_antisymm; apply round_half_even_mono; rewrite H; apply Qle_refl.
Qed.

(** ** Rounding a magnitude *)

Lemma round_magnitude_nonneg (x : Q) : 0 <= x -> 0 <= round_magnitude x.
Proof.
  intros Hx. unfold round_magnitude.
  apply Qmult_le_0_compat; [|apply Qlt_le_weak, pow2_pos].
  change 0 with (inject_Z 0). rewrite <- Zle_Qle. apply round_half_even_ge.
  apply Qle_shift_div_l; [apply pow2_pos|]. by rewrite Qmult_0_l.
Qed.

(** The rounding error is at most half a unit in the last place. *)
Lemma round_magnitude_near (x : Q) :
  x - pow2 (ulp_exponent x - 1) <= round_magnitude x
  <= x + pow2 (ulp_exponent x - 1).
Proof.
  unfold round_magnitude. set (k := ulp_exponent x).
  pose proof (pow2_pos k) as Hk. pose proof (pow2_pred k) as Hp.
  destruct (round_half_even_near (x / pow2 k)) as [H1 H2].
  assert (Hx : x == x / pow2 k * pow2 k) by (field; lra).
  set (m := x / pow2 k) in *. set (r := inject_Z (round_half_even m)) in *.
  clearbody r m. set (P := pow2 k) in *. clearbody P.
  assert (A1 : (m - (1 # 2)) * P <= r * P)
    by (apply Qmult_le_compat_r; [exact H1 | lra]).
  assert (A2 : r * P <= (m + (1 # 2)) * P)
    by (apply Qmult_le_compat_r; [exact H2 | lra]).
  rewrite Hp. split; lra.
Qed.

(** Half a unit in the last place of [x] is at most [2^-53 x], or is
    [2^-1075]. *)
Lemma half_ulp_bound (x : Q) :
  0 < x -> pow2 (ulp_exponent x - 1) <= pow2 (-53) * x + pow2 (-1075).
Proof.
  intros Hx. unfold ulp_exponent.
  destruct (floor_log2_spec x Hx) as [H1 _].
  pose proof (pow2_pos (-53)) as Hu. pose proof (pow2_pos (-1075)) as He.
  destruct (Z.max_spec (floor_log2 x - 52) (-1074)) as [[_ ->]|[_ ->]].
  - change (-1074 - 1)%Z with (-1075)%Z.
    assert (0 <= pow2 (-53) * x) by (apply Qmult_le_0_compat; lra). lra.
  - replace (floor_log2 x - 52 - 1)%Z with (-53 + floor_log2 x)%Z by lia.
    rewrite pow2_add.
    assert (pow2 (-53) * pow2 (floor_log2 x) <= pow2 (-53) * x)
      by (apply Qmult_le_l; assumption).
    lra.
Qed.

Lemma Qdiv_zero (x p : Q) : x == 0 -> x / p == inject_Z 0.
Proof. intros H. rewrite H. unfold Qdiv. apply Qmult_0_l. Qed.

Lemma round_magnitude_zero (x : Q) : x == 0 -> round_magnitude x == 0.
Proof.
  intros H0. unfold round_magnitude.
  rewrite (Qdiv_zero _ _ H0), round_half_even_Z. apply Qmult_0_l.
Qed.

Lemma round_magnitude_error (x : Q) :
  0 <= x ->
  x - (pow2 (-53) * x + pow2 (-1075)) <= round_magnitude x
  <= x + (pow2 (-53) * x + pow2 (-1075)).
Proof.
  intros Hx. destruct (Qle_lt_or_eq _ _ Hx) as [Hpos|H0].
  - pose proof (round_magnitude_near x) as [H1 H2].
    pose proof (half_ulp_bound x Hpos). split; lra.
  - symmetry in H0. pose proof (round_magnitude_zero x H0) as Hr.
    pose proof (pow2_pos (-1075)). pose proof (pow2_pos (-53)).
    assert (pow2 (-53) * x == 0) by (rewrite H0; ring).
    split; lra.
Qed.

(** A number with a unit in the last place above [2^-1074] has 53
    significant bits. *)
Lemma round_magnitude_normal (y : Q) :
  0 < y -> (-1074 < ulp_exponent y)%Z ->
  ulp_exponent y = (floor_log2 y - 52)%Z
  /\ pow2 (floor_log2 y) <= round_magnitude y.
Proof.
  intros Hy Hk. unfold ulp_exponent in *.
  assert (E : Z.max (floor_log2 y - 52) (-1074) = (floor_log2 y - 52)%Z) by lia.
  split; [exact E|].
  unfold round_magnitude, ulp_exponent. rewrite E.
  destruct (floor_log2_spec y Hy) as [H1 _].
  set (e := floor_log2 y) in *. pose proof (pow2_pos (e - 52)) as Hp.
  apply Qle_trans with (inject_Z (2 ^ 52) * pow2 (e - 52)).
  - rewrite <- pow2_Z by lia. rewrite <- pow2_add.
    replace (52 + (e - 52))%Z with e by lia. apply Qle_refl.
  - apply Qmult_le_compat_r; [|lra].
    rewrite <- Zle_Qle. apply round_half_even_ge.
    apply Qle_shift_div_l; [exact Hp|].
    rewrite <- pow2_Z by lia. rewrite <- pow2_add.
    replace (52 + (e - 52))%Z with e by lia. exact H1.
Qed.

Lemma round_magnitude_mono (x y : Q) :
  0 <= x -> x <= y -> round_magnitude x <= round_magnitude y.
Proof.
  intros Hx Hxy. destruct (Qle_lt_or_eq _ _ Hx) as [Hpos|H0].
  2:{ rewrite (round_magnitude_zero x) by (symmetry; exact H0).
      apply round_magnitude_nonneg. lra. }
  assert (Hy : 0 < y) by lra.
  pose proof (floor_log2_le x y Hpos Hxy) as He.
  destruct (Z.eq_dec (ulp_exponent x) (ulp_exponent y)) as [E|E].
  - unfold round_magnitude. rewrite E. set (k := ulp_exponent y).
    pose proof (pow2_pos k) as Hk.
    apply Qmult_le_compat_r; [|lra].
    rewrite <- Zle_Qle. apply round_half_even_mono.
    apply Qmult_le_compat_r; [exact Hxy|]. apply Qlt_le_weak, Qinv_lt_0_compat, Hk.
  - assert (Hlt : (ulp_exponent x < ulp_exponent y)%Z) by (unfold ulp_exponent in *; lia).
    assert (Hn : (-1074 < ulp_exponent y)%Z) by (unfold ulp_exponent in *; lia).
    destruct (round_magnitude_normal y Hy Hn) as [Eky Hge].
    apply Qle_trans with (pow2 (floor_log2 y)); [|exact Hge].
    destruct (floor_log2_spec x Hpos) as [_ H2].
    set (kx := ulp_exponent x) in *. set (ey := floor_log2 y) in *.
    assert (Hex : (floor_log2 x + 1 <= ey)%Z) by (unfold kx, ulp_exponent in *; lia).
    pose proof (pow2_le _ _ Hex) as Hp. pose proof (pow2_pos kx) as Hk.
    unfold round_magnitude. fold kx.
    apply Qle_trans with (inject_Z (2 ^ (ey - kx)) * pow2 kx).
    + apply Qmult_le_compat_r; [|lra].
      rewrite <- Zle_Qle. apply round_half_even_le.
      apply Qle_shift_div_r; [exact Hk|].
      rewrite <- pow2_Z by lia. rewrite <- pow2_add.
      replace (ey - kx + kx)%Z with ey by lia. lra.
    + rewrite <- pow2_Z by lia. rewrite <- pow2_add.
      replace (ey - kx + kx)%Z with ey by lia. apply Qle_refl.
Qed.

(** ** Rounding to binary64 *)

Lemma round_binary64_eq (x : Q) :
  round_binary64 x
  == if Qle_bool 0 x then round_magnitude x else - round_magnitude (- x).
Proof. apply Qred_correct. Qed.

Lemma round_binary64_nonneg (x : Q) :
  0 <= x -> round_binary64 x == round_magnitude x.
Proof.
  intros H. rewrite round_binary64_eq.
  apply Qle_bool_iff in H. by rewrite H.
Qed.

Lemma round_binary64_neg (x : Q) :
  x < 0 -> round_binary64 x == - round_magnitude (- x).
Proof.
  intros H. rewrite round_binary64_eq.
  destruct (Qle_bool 0 x) eqn:E; [|reflexivity].
  apply Qle_bool_iff in E. lra.
Qed.

Lemma round_binary64_mono (x y : Q) :
  x <= y -> round_binary64 x <= round_binary64 y.
Proof.
  intros Hxy. destruct (Qlt_le_dec x 0) as [Hx|Hx], (Qlt_le_dec y 0) as [Hy|Hy].
  - rewrite !round_binary64_neg by assumption.
    apply Qopp_le_compat. apply round_magnitude_mono; lra.
  - rewrite (round_binary64_neg x), (round_binary64_nonneg y) by assumption.
    pose proof (round_magnitude_nonneg (- x)). pose proof (round_magnitude_nonneg y).
    lra.
  - lra.
  - rewrite !round_binary64_nonneg by assumption.
    by apply round_magnitude_mono.
Qed.

Global Instance round_binary64_comp : Proper (Qeq ==> Qeq) round_binary64.
Proof.
  intros x y H. apply Qle_antisym; apply round_binary64_mono; rewrite H; apply Qle_refl.
Qed.

Lemma round_binary64_leibniz (x y : Q) :
  x == y -> round_binary64 x = round_binary64 y.
Proof.
  intros H. unfold round_binary64. apply Qred_complete.
  rewrite <- !round_binary64_eq. by apply round_binary64_comp.
Qed.

(** The rounding error relative to the exact value is at most [2^-53],
    apart from [2^-1075] where the result is below the normal numbers. *)
Lemma round_binary64_error (x : Q) :
  Qabs (round_binary64 x - x) <= pow2 (-53) * Qabs x + pow2 (-1075).
Proof.
  apply Qabs_Qle_condition.
  destruct (Qlt_le_dec x 0) as [Hx|Hx].
  - rewrite round_binary64_neg, (Qabs_neg x) by lra.
    pose proof (round_magnitude_error (- x)) as [H1 H2]; [lra|]. split; lra.
  - rewrite round_binary64_nonneg, (Qabs_pos x) by lra.
    pose proof (round_magnitude_error x Hx) as [H1 H2]. split; lra.
Qed.

(** ** Binary64 numbers that round to themselves *)


Lemma round_binary64_0 : round_binary64 0 = 0.
Proof. vm_compute. reflexivity. Qed.

Lemma round_binary64_1 : round_binary64 1 = 1.
Proof. vm_compute. reflexivity. Qed.






(** ** Rational sums *)

Lemma Qsum_app (l1 l2 : list Q) : Qsum (l1 ++ l2) == Qsum l1 + Qsum l2.
Proof.
  induction l1 as [|a l1 IH]; simpl.
  - ring.
  - rewrite IH. ring.
Qed.

Lemma Qsum_map_scale (q : Q) (f g : nat -> Q) (l : list nat) :
  (forall k, In k l -> f k == q * g k) ->
  Qsum (map f l) == q * Qsum (map g l).
Proof.
  induction l as [|a l IH]; simpl; intros Hfg.
  - ring.
  - rewrite IH by auto. rewrite (Hfg a) by auto. ring.
Qed.

Lemma Qpow_nonneg (q : Q) (n : nat) : 0 <= q -> 0 <= Qpow q n.
Proof.
  intros Hq. induction n as [|n IH]; simpl.
  - discriminate.
  - apply Qmult_le_0_compat; assumption.
Qed.

(** ** The two sums of the formula, one index further *)

Lemma spec_numerator_0 (d : Q) (vals : list Q) :
  spec_numerator d vals 0 == nth 0 vals 0.
Proof. unfold spec_numerator. simpl. ring. Qed.

Lemma spec_denominator_0 (d : Q) : spec_denominator d 0 == 1.
Proof. unfold spec_denominator. simpl. ring. Qed.

Lemma spec_numerator_succ (d : Q) (vals : list Q) (i : nat) :
  spec_numerator d vals (S i)
  == (1 - d) * spec_numerator d vals i + nth (S i) vals 0.
Proof.
  unfold spec_numerator.
  rewrite (seq_S (S i) 0), map_app, Qsum_app.
  cbn [map Qsum fold_right Nat.add]. rewrite Nat.sub_diag. cbn [Qpow].
  rewrite (Qsum_map_scale (1 - d)
             (fun k => Qpow (1 - d) (S i - k) * nth k vals 0)
             (fun k => Qpow (1 - d) (i - k) * nth k vals 0)).
  - ring.
  - intros k Hk. apply in_seq in Hk.
    replace (S i - k)%nat with (S (i - k)) by lia. cbn [Qpow]. ring.
Qed.

Lemma spec_denominator_succ (d : Q) (i : nat) :
  spec_denominator d (S i) == (1 - d) * spec_denominator d i + 1.
Proof.
  unfold spec_denominator.
  rewrite (seq_S (S i) 0), map_app, Qsum_app.
  cbn [map Qsum fold_right Nat.add]. rewrite Nat.sub_diag. cbn [Qpow].
  rewrite (Qsum_map_scale (1 - d)
             (fun k => Qpow (1 - d) (S i - k))
             (fun k => Qpow (1 - d) (i - k))).
  - ring.
  - intros k Hk. apply in_seq in Hk.
    replace (S i - k)%nat with (S (i - k)) by lia. cbn [Qpow]. ring.
Qed.

Lemma spec_denominator_ge_1 (d : Q) (i : nat) :
  d <= 1 -> 1 <= spec_denominator d i.
Proof.
  intros Hd. induction i as [|i IH].
  - rewrite spec_denominator_0. lra.
  - rewrite spec_denominator_succ. nra.
Qed.

Lemma lookup_map {A B : Type} (f : A -> B) (l : list A) (i : nat) :
  map f l !! i = f <$> l !! i.
Proof.
  revert i. induction l as [|a l IH]; intros [|i]; simpl; try reflexivity.
  apply IH.
Qed.

(** ** One step of the recurrence *)

Lemma ewm_step_snd (q : Q) (w ow cur : Q) :
  snd (ewm_step q 1 (w, ow) cur) = ow * q + 1.
Proof. reflexivity. Qed.

Lemma ewm_step_fst (q N D w ow cur : Q) :
  0 <= q -> 1 <= D -> w == N / D -> ow == D ->
  fst (ewm_step q 1 (w, ow) cur) == (q * N + cur) / (q * D + 1).
Proof.
  intros Hq HD Hw How.
  assert (HN : N == w * D) by (rewrite Hw; field; lra).
  assert (Hden : 0 < q * D + 1) by nra.
  unfold ewm_step; cbn [fst].
  destruct (Qeq_bool w cur) eqn:E.
  - apply Qeq_bool_iff in E. rewrite HN, <- E. field. lra.
  - rewrite HN, How. field. lra.
Qed.

(** ** The recurrence computes the formula *)

Lemma drop_cons_nth (vals rest : list Q) (n : nat) (cur : Q) :
  drop n vals = cur :: rest -> nth n vals 0 = cur /\ drop (S n) vals = rest.
Proof.
  revert n. induction vals as [|v vals IH]; intros n H.
  - destruct n; discriminate.
  - destruct n as [|n]; simpl in *.
    + inversion H; subst. split; [reflexivity | by rewrite drop_0].
    + apply IH, H.
Qed.

Lemma ewm_states_closed (d : Q) (vals : list Q) :
  0 < d <= 1 ->
  forall (rest : list Q) (n : nat) (w ow : Q),
    drop (S n) vals = rest ->
    w == spec_smoothed d vals n ->
    ow == spec_denominator d n ->
    forall (j : nat) (st : Q * Q),
      ewm_states (1 - d) 1 (w, ow) rest !! j = Some st ->
      fst st == spec_smoothed d vals (S n + j)
      /\ snd st == spec_denominator d (S n + j).
Proof.
  intros Hd rest. induction rest as [|cur rest IH]; intros n w ow Hdrop Hw How j st Hj.
  - discriminate.
  - apply drop_cons_nth in Hdrop as [Hcur Hdrop].
    assert (Hq : 0 <= 1 - d) by lra.
    assert (HD : 1 <= spec_denominator d n) by (apply spec_denominator_ge_1; lra).
    pose proof (ewm_step_fst (1 - d) _ _ w ow cur Hq HD Hw How) as Hfst.
    pose proof (ewm_step_snd (1 - d) w ow cur) as Hsnd.
    cbn [ewm_states] in Hj.
    assert (Hw' : fst (ewm_step (1 - d) 1 (w, ow) cur) == spec_smoothed d vals (S n)).
    { rewrite Hfst. unfold spec_smoothed.
      rewrite spec_numerator_succ, spec_denominator_succ, Hcur. reflexivity. }
    assert (How' : snd (ewm_step (1 - d) 1 (w, ow) cur) == spec_denominator d (S n)).
    { rewrite Hsnd, spec_denominator_succ, How. ring. }
    destruct j as [|j].
    + injection Hj as <-. rewrite Nat.add_0_r. split; assumption.
    + destruct (ewm_step (1 - d) 1 (w, ow) cur) as [w' ow'] eqn:E.
      change (ewm_states (1 - d) 1 (w', ow') rest !! j = Some st) in Hj.
      cbn [fst snd] in *.
      replace (S n + S j)%nat with (S (S n) + j)%nat by lia.
      apply (IH (S n) w' ow'); assumption.
Qed.

Lemma ewm_mean_valid (alpha : Q) (vals : list Q) :
  0 < alpha <= 1 ->
  ewm_mean alpha vals =
  inr match vals with
      | [] => []
      | v0 :: rest => v0 :: map fst (ewm_states (1 - alpha) 1 (v0, 1) rest)
      end.
Proof.
  intros [H0 H1]. unfold ewm_mean, Qltb.
  destruct (Qle_bool alpha 0) eqn:E0.
  - apply Qle_bool_iff in E0. lra.
  - destruct (Qle_bool alpha 1) eqn:E1.
    + destruct vals; reflexivity.
    + apply Qle_bool_iff in H1. congruence.
Qed.

Lemma ewm_mean_invalid (alpha : Q) (vals : list Q) :
  ~ (0 < alpha <= 1) -> ewm_mean alpha vals = inl ValueError.
Proof.
  intros H. unfold ewm_mean, Qltb.
  destruct (Qle_bool alpha 0) eqn:E0; [reflexivity|].
  destruct (Qle_bool alpha 1) eqn:E1; [|reflexivity].
  exfalso. apply H. apply Qle_bool_iff in E1. split; [|assumption].
  apply Qnot_le_lt. intros Hle. apply Qle_bool_iff in Hle. congruence.
Qed.

Lemma ewm_states_length (q nw : Q) (st : Q * Q) (vals : list Q) :
  length (ewm_states q nw st vals) = length vals.
Proof.
  revert st. induction vals as [|v vals IH]; intros st; simpl; [reflexivity|].
  by rewrite IH.
Qed.

Lemma ewm_mean_length (alpha : Q) (vals out : list Q) :
  ewm_mean alpha vals = inr out -> length out = length vals.
Proof.
  unfold ewm_mean. destruct (_ || _); [discriminate|].
  destruct vals as [|v0 rest]; intros [= <-]; simpl; [reflexivity|].
  by rewrite length_map, ewm_states_length.
Qed.

Lemma ewm_mean_closed (d : Q) (vals out : list Q) :
  0 < d <= 1 -> ewm_mean d vals = inr out ->
  forall (i : nat) (s : Q), out !! i = Some s -> s == spec_smoothed d vals i.
Proof.
  intros Hd Hout i s Hi. rewrite (ewm_mean_valid d vals Hd) in Hout.
  injection Hout as <-. destruct vals as [|v0 rest]; [discriminate|].
  destruct i as [|i].
  - injection Hi as <-. unfold spec_smoothed.
    rewrite spec_numerator_0, spec_denominator_0. simpl. field.
  - change (map fst (ewm_states (1 - d) 1 (v0, 1) rest) !! i = Some s) in Hi.
    rewrite lookup_map in Hi.
    destruct (ewm_states (1 - d) 1 (v0, 1) rest !! i) as [st|] eqn:E; [|discriminate].
    injection Hi as <-.
    apply (ewm_states_closed d (v0 :: rest) Hd rest 0 v0 1) in E as [E _]; try assumption.
    + reflexivity.
    + unfold spec_smoothed. rewrite spec_numerator_0, spec_denominator_0. simpl. field.
    + by rewrite spec_denominator_0.
Qed.

Lemma spec_smoothed_no_decay (d : Q) (vals : list Q) (i : nat) :
  d == 1 -> spec_smoothed d vals i == nth i vals 0.
Proof.
  intros Hd. assert (Hq : 1 - d == 0) by lra.
  unfold spec_smoothed. destruct i as [|i].
  - rewrite spec_numerator_0, spec_denominator_0. field.
  - rewrite spec_numerator_succ, spec_denominator_succ, Hq. field.
Qed.

(** ** Bounds of the recurrence *)






(** ** The inverted smoothing factor *)

Lemma float_1e_4_range : 0 < float_1e_4 <= 1.
Proof. split; [reflexivity | discriminate]. Qed.

Lemma inverted_alpha_range (alpha : Q) :
  0 <= alpha <= 1 -> 0 < inverted_alpha alpha <= 1.
Proof.
  intros [H0 H1]. unfold inverted_alpha.
  assert (Hlo : 0 <= round_binary64 (1 - alpha)).
  { apply Qle_trans with (round_binary64 0); [by rewrite round_binary64_0|].
    apply round_binary64_mono. lra. }
  assert (Hhi : round_binary64 (1 - alpha) <= 1).
  { apply Qle_trans with (round_binary64 1); [|by rewrite round_binary64_1].
    apply round_binary64_mono. lra. }
  destruct (Qeq_bool (round_binary64 (1 - alpha)) 0) eqn:E.
  - apply float_1e_4_range.
  - apply Qeq_bool_neq in E. split; [|exact Hhi].
    destruct (Qle_lt_or_eq _ _ Hlo) as [Hlt|Heq]; [exact Hlt|].
    exfalso. apply E. by symmetry.
Qed.




(** ** Rows of the smoothed frame *)

Lemma set_value_column_lookup (df : DataFrame) (vs : list Q) (i : nat) (r : ScalarEvent) :
  set_value_column df vs !! i = Some r ->
  exists e s, df !! i = Some e /\ vs !! i = Some s
              /\ value r = s /\ wall_time r = wall_time e /\ step r = step e.
Proof.
  unfold set_value_column. intros H.
  apply lookup_zip_with_Some in H as (e & s & -> & He & Hs).
  exists e, s. repeat split; assumption.
Qed.

Lemma set_value_column_keeps (df : DataFrame) (vs : list Q) :
  length vs = length df ->
  length (set_value_column df vs) = length df
  /\ map wall_time (set_value_column df vs) = map wall_time df
  /\ map step (set_value_column df vs) = map step df
  /\ value_column (set_value_column df vs) = vs.
Proof.
  unfold set_value_column, value_column. revert vs.
  induction df as [|e df IH]; intros [|v vs] Hlen; try discriminate.
  - repeat split.
  - injection Hlen as Hlen. destruct (IH vs Hlen) as (H1 & H2 & H3 & H4).
    cbn [zip_with map length wall_time step value].
    rewrite H1, H2, H3, H4. repeat split.
Qed.

Lemma extract_present (metric : string) (ea : Scalars) (d : Q) (series : ScalarSeries) :
  assoc metric ea = Some series ->
  _extract_and_smooth_metrics metric ea d =
  (smoothed <- ewm_mean d (value_column (events series)) ;;
   ret (set_value_column (events series) smoothed)).
Proof. intros H. unfold _extract_and_smooth_metrics. by rewrite H. Qed.

Lemma extract_no_error (metric : string) (ea : Scalars) (d : Q) :
  0 < d <= 1 -> exists df, _extract_and_smooth_metrics metric ea d = inr df.
Proof.
  intros Hd. unfold _extract_and_smooth_metrics.
  destruct (assoc metric ea) as [series|]; [|by eexists].
  rewrite (ewm_mean_valid d _ Hd). by eexists.
Qed.

(** C9. The frame returned by [_extract_and_smooth_metrics] has as many rows
    as the run has events for the metric, with the [wall_time] and [step]
    columns of those events: whenever the call returns, whatever the decay
    factor, and it does return for a decay factor in (0, 1]. *)
Theorem smoothing_preserves_length
  (metric : string) (ea : Scalars) (d : Q) (series : ScalarSeries) :
  assoc metric ea = Some series ->
  (forall df, _extract_and_smooth_metrics metric ea d = inr df ->
     length df = length (events series)
     /\ map wall_time df = map wall_time (events series)
     /\ map step df = map step (events series))
  /\ (0 < d <= 1 -> exists df, _extract_and_smooth_metrics metric ea d = inr df).
Proof.
  intros Hs. split.
  - intros df. rewrite (extract_present _ _ _ _ Hs).
    destruct (ewm_mean d (value_column (events series))) as [e|out] eqn:E;
      [discriminate|].
    intros [= <-]. apply ewm_mean_length in E.
    unfold value_column in E. rewrite length_map in E.
    destruct (set_value_column_keeps (events series) out E) as (H1 & H2 & H3 & _).
    repeat split; assumption.
  - apply extract_no_error.
Qed.

Lemma smoothing_preserves_length_witness :
  assoc "loss" loss_run = Some (series_of 4 [2; 3])
  /\ exists df, _extract_and_smooth_metrics "loss" loss_run (1 # 2) = inr df
                /\ length df = 3%nat.
Proof.
  split; [reflexivity|].
  destruct (smoothing_preserves_length "loss" loss_run (1 # 2) (series_of 4 [2; 3])
              eq_refl) as [Hlen Hret].
  destruct Hret as [df Hdf]; [split; [reflexivity | discriminate]|].
  exists df. split; [exact Hdf|]. exact (proj1 (Hlen df Hdf)).
Defined.

(** C3. For a run that has the metric and a decay factor [d] in (0, 1], the
    smoothing step returns a frame whose first value is the first raw value
    and whose value at every index [i] is the quotient of the two weighted
    sums of the formula; for [d = 1], which is what [alpha = 0] gives, the
    values are the raw values. *)
Theorem smoothing_closed_form
  (metric : string) (ea : Scalars) (d : Q) (series : ScalarSeries) :
  assoc metric ea = Some series ->
  0 < d <= 1 ->
  inverted_alpha 0 = 1
  /\ exists df,
       _extract_and_smooth_metrics metric ea d = inr df
       /\ length df = length (events series)
       /\ value <$> df !! 0%nat = Some (value (first_event series))
       /\ (forall i r, df !! i = Some r ->
             value r == spec_smoothed d (value_column (events series)) i)
       /\ (d == 1 -> Forall2 (fun r e => value r == value e) df (events series)).
Proof.
  intros Hs Hd. split; [reflexivity|].
  rewrite (extract_present _ _ _ _ Hs).
  destruct (ewm_mean d (value_column (events series))) as [e|out] eqn:E.
  { rewrite (ewm_mean_valid d _ Hd) in E. discriminate. }
  pose proof (ewm_mean_length _ _ _ E) as Hlen.
  unfold value_column in Hlen. rewrite length_map in Hlen.
  destruct (set_value_column_keeps (events series) out Hlen) as (H1 & _ & _ & H4).
  assert (Hform : forall i r, set_value_column (events series) out !! i = Some r ->
            value r == spec_smoothed d (value_column (events series)) i).
  { intros i r Hr. apply set_value_column_lookup in Hr as (e & s & _ & Hsi & Hv & _).
    rewrite Hv. exact (ewm_mean_closed d _ out Hd E i s Hsi). }
  eexists. split; [reflexivity|]. split; [exact H1|]. split; [|split].
  - rewrite (ewm_mean_valid d _ Hd) in E. injection E as <-. reflexivity.
  - exact Hform.
  - intros Hd1. apply Forall2_same_length_lookup. split; [exact H1|].
    intros i r e Hr He. rewrite (Hform i r Hr).
    rewrite (spec_smoothed_no_decay d _ i Hd1).
    unfold value_column. rewrite (nth_lookup_Some _ _ _ (value e)); [reflexivity|].
    by rewrite lookup_map, He.
Qed.

Lemma smoothing_closed_form_witness :
  assoc "loss" loss_run = Some (series_of 4 [2; 3])
  /\ 0 < 1 # 2 <= 1
  /\ exists df,
       _extract_and_smooth_metrics "loss" loss_run (1 # 2) = inr df
       /\ forall i r, df !! i = Some r ->
            value r == spec_smoothed (1 # 2) [4; 2; 3] i.
Proof.
  split; [reflexivity|]. split; [split; [reflexivity | discriminate]|].
  destruct (smoothing_closed_form "loss" loss_run (1 # 2) (series_of 4 [2; 3]))
    as (_ & df & Hdf & _ & _ & Hform & _);
    [reflexivity | split; [reflexivity | discriminate] |].
  exists df. split; [exact Hdf | exact Hform].
Defined.





(** ** The loop over the runs of a version *)

Lemma column_length (df : DataFrame) (name : string) (xs : list Q) :
  column df name = inr xs -> length xs = length df.
Proof.
  unfold column.
  repeat (destruct (String.eqb name _); [intros [= <-]; apply length_map|]).
  discriminate.
Qed.

Lemma plot_runs_series (self : TensorBoardPlotter) (colors : ColorCycle) (idx : nat)
  (dfs : list DataFrame) :
  forall st rs : RunsState,
    plot_runs self colors idx dfs st = inr rs ->
    all_runs_values rs = all_runs_values st ++ map value_column dfs
    /\ exists xs, all_runs_x rs = all_runs_x st ++ xs
                  /\ Forall2 (fun (x : list Q) (df : DataFrame) => length x = length df) xs dfs.
Proof.
  induction dfs as [|df dfs IH]; intros st rs H.
  - injection H as <-. rewrite !app_nil_r. split; [reflexivity|].
    exists []. rewrite app_nil_r. split; [reflexivity | constructor].
  - cbn [plot_runs] in H.
    destruct (column df (x_axis self)) as [e|xs] eqn:Ex; [discriminate|].
    cbn [bind] in H.
    assert (Hmin : Nat.min (length df) (length (value_column df)) = length df)
      by (unfold value_column; rewrite length_map; lia).
    rewrite Hmin in H.
    destruct (if plot_mean_only self then _ else _) as [ax lines] in H.
    apply IH in H as [Hv (xs' & Hx & Hall)]. cbn [all_runs_values all_runs_x] in *.
    assert (Htake : take (length df) (value_column df) = value_column df)
      by (apply take_ge; unfold value_column; rewrite length_map; lia).
    rewrite Htake in Hv. split.
    + rewrite Hv, <- app_assoc. reflexivity.
    + exists (take (length df) xs :: xs'). split.
      * rewrite Hx, <- app_assoc. reflexivity.
      * constructor; [|exact Hall].
        rewrite length_take. apply column_length in Ex. lia.
Qed.

(** ** The mean across the runs *)

Lemma max_length_ge (cols : list (list Q)) (c : list Q) :
  c ∈ cols -> (length c <= max_length cols)%nat.
Proof.
  unfold max_length. induction cols as [|c' cols IH]; intros Hin.
  - by apply elem_of_nil in Hin.
  - cbn [map fold_right]. apply elem_of_cons in Hin as [->|Hin]; [lia|].
    specialize (IH Hin). lia.
Qed.

Lemma concat_mean_length (cols : list (list Q)) :
  length (concat_mean cols) = max_length cols.
Proof. unfold concat_mean. by rewrite length_map, length_seq. Qed.

Lemma concat_mean_lookup (cols : list (list Q)) (i : nat) :
  (i < max_length cols)%nat ->
  concat_mean cols !! i = Some (mean_cells (row_cells cols i)).
Proof.
  intros Hi. unfold concat_mean. rewrite lookup_map, lookup_seq_lt by exact Hi.
  reflexivity.
Qed.

Lemma omap_cons_eq {A B : Type} (f : A -> option B) (a : A) (l : list A) :
  omap f (a :: l) = match f a with Some b => b :: omap f l | None => omap f l end.
Proof. reflexivity. Qed.

Lemma row_cells_values (dfs : list DataFrame) (i : nat) :
  row_cells (map value_column dfs) i = omap (fun df : DataFrame => value <$> df !! i) dfs.
Proof.
  unfold row_cells. induction dfs as [|df dfs IH]; [reflexivity|].
  cbn [map]. rewrite !(omap_cons_eq). unfold value_column at 1. rewrite lookup_map, IH. reflexivity.
Qed.

Lemma omap_all_present (dfs : list DataFrame) (i : nat) :
  Forall (fun df : DataFrame => (i < length df)%nat) dfs ->
  omap (fun df : DataFrame => value <$> df !! i) dfs
  = map (fun df => nth i (value_column df) 0) dfs.
Proof.
  induction 1 as [|df dfs Hlt _ IH]; [reflexivity|].
  cbn [map]. rewrite omap_cons_eq, IH.
  destruct (lookup_lt_is_Some_2 df i Hlt) as [r Hr]. rewrite Hr. cbn [fmap option_fmap option_map].
  unfold value_column. rewrite (nth_lookup_Some _ _ _ (value r)); [reflexivity|].
  by rewrite lookup_map, Hr.
Qed.

(** C1, as stated, fails: with smoothed runs of 7, 5 and 9 samples, in this
    order, the mean line has 9 values, more than the shortest run has; its
    value at position 5 is the average of the two runs that reach it. *)
Lemma mean_curve_longer_than_shortest_run :
  exists (fig : Figure) (mean_line : Line2D),
    plot lengths_fs default_colors (plotter_with_alpha 0) = Shown fig
    /\ fig_runs fig = [[0; 1; 2]]%nat
    /\ fig_main fig = [[3]]%nat
    /\ map (fun l => length (ydata l)) (fig_lines fig) = [7; 5; 9; 9]%nat
    /\ fig_lines fig !! 3%nat = Some mean_line
    /\ length (ydata mean_line) = 9%nat
    /\ length (ydata mean_line) <> 5%nat
    /\ ~ (length (ydata mean_line) <= 5)%nat
    /\ exists v, ydata mean_line !! 5%nat = Some v /\ v == 2.
Proof.
  eexists. eexists. split; [vm_compute; reflexivity|].
  split; [reflexivity|]. split; [reflexivity|]. split; [reflexivity|].
  split; [reflexivity|]. split; [reflexivity|].
  split; [discriminate|]. split; [cbn; lia|].
  eexists. split; [reflexivity|]. reflexivity.
Qed.

(** C1 (amended). For a version with at least one run, the mean curve has
    the length of the last run in iteration order, which is at most the
    length of the longest run; its value at a position below that length is
    the average of the values there of the runs that reach the position, and
    at a position that every run reaches it is the average across all runs. *)
Theorem mean_curve_follows_last_run
  (self : TensorBoardPlotter) (colors : ColorCycle) (idx : nat) (ax : Axes)
  (dfs : list DataFrame) (df_last : DataFrame) (rs : RunsState) :
  last dfs = Some df_last ->
  plot_runs self colors idx dfs (runs_init ax) = inr rs ->
  exists x_mean y_mean : list Q,
    version_mean (all_runs_values rs) (all_runs_x rs) = inr (x_mean, y_mean)
    /\ length y_mean = length df_last
    /\ length x_mean = length df_last
    /\ (length y_mean <= max_length (map value_column dfs))%nat
    /\ (forall i : nat, (i < length df_last)%nat ->
          y_mean !! i
          = Some (mean_cells (omap (fun df : DataFrame => value <$> df !! i) dfs)))
    /\ (forall i : nat,
          Forall (fun df : DataFrame => (i < length df)%nat) dfs ->
          y_mean !! i
          = Some (Qsum (map (fun df => nth i (value_column df) 0) dfs)
                  / inject_Z (Z.of_nat (length dfs)))).
Proof.
  intros Hlast Hruns.
  apply plot_runs_series in Hruns as [Hv (xs & Hx & Hall)].
  cbn [runs_init all_runs_values all_runs_x app] in Hv, Hx.
  rewrite Hv, Hx. unfold version_mean.
  assert (Hxl : exists x_last, last xs = Some x_last /\ length x_last = length df_last).
  { clear -Hall Hlast. induction Hall as [|x df xs dfs Hlen Hall IH]; [discriminate|].
    destruct Hall as [|x' df' xs' dfs' Hlen' Hall'].
    - injection Hlast as <-. by exists x.
    - apply IH, Hlast. }
  destruct Hxl as (x_last & Hxlast & Hlen). rewrite Hxlast.
  assert (Hmax : (length df_last <= max_length (map value_column dfs))%nat).
  { replace (length df_last) with (length (value_column df_last))
      by (unfold value_column; apply length_map).
    apply max_length_ge, list_elem_of_In, in_map, list_elem_of_In.
    apply last_Some in Hlast as [l' ->]. apply elem_of_app. right. by left. }
  assert (Hmin : Nat.min (length x_last) (length (concat_mean (map value_column dfs)))
                 = length df_last)
    by (rewrite concat_mean_length; lia).
  rewrite Hmin.
  assert (Hval : forall i, (i < length df_last)%nat ->
            take (length df_last) (concat_mean (map value_column dfs)) !! i
            = Some (mean_cells (omap (fun df : DataFrame => value <$> df !! i) dfs))).
  { intros i Hi. rewrite lookup_take_lt by exact Hi.
    rewrite concat_mean_lookup by lia. by rewrite row_cells_values. }
  eexists _, _. split; [reflexivity|].
  split; [rewrite length_take, concat_mean_length; lia|].
  split; [rewrite length_take; lia|].
  split; [rewrite length_take, concat_mean_length; lia|].
  split; [exact Hval|].
  intros i Hi.
  assert (Hlt : (i < length df_last)%nat).
  { rewrite Forall_forall in Hi. apply Hi.
    apply last_Some in Hlast as [l' ->]. apply elem_of_app. right. by left. }
  rewrite (Hval i Hlt). unfold mean_cells.
  rewrite (omap_all_present dfs i Hi), length_map. reflexivity.
Qed.

Lemma mean_curve_follows_last_run_witness :
  last [frame_of [1; 1; 1]; frame_of [100]; frame_of [3; 3]] = Some (frame_of [3; 3])
  /\ exists rs x_mean y_mean,
       plot_runs (plotter_with_alpha 0) default_colors 0
         [frame_of [1; 1; 1]; frame_of [100]; frame_of [3; 3]] (runs_init []) = inr rs
       /\ version_mean (all_runs_values rs) (all_runs_x rs) = inr (x_mean, y_mean)
       /\ length y_mean = 2%nat.
Proof.
  split; [reflexivity|]. eexists.
  destruct (mean_curve_follows_last_run (plotter_with_alpha 0) default_colors 0 []
              [frame_of [1; 1; 1]; frame_of [100]; frame_of [3; 3]]
              (frame_of [3; 3]) _ eq_refl eq_refl)
    as (x_mean & y_mean & Hm & Hlen & _).
  exists x_mean, y_mean. split; [reflexivity|]. split; [exact Hm | exact Hlen].
Defined.

(** ** Membership and position in the legend labels *)

Lemma contains_elem_of (x : string) (l : list string) :
  contains x l = true <-> x ∈ l.
Proof.
  unfold contains. rewrite existsb_exists. split.
  - intros (y & Hin & Heq). apply String.eqb_eq in Heq as ->.
    by apply list_elem_of_In.
  - intros Hin. exists x. split; [by apply list_elem_of_In | apply String.eqb_refl].
Qed.

Lemma index_of_lookup (x : string) (l : list string) (i : nat) :
  index_of x l = Some i -> l !! i = Some x.
Proof.
  revert i. induction l as [|y l IH]; intros i H; [discriminate|].
  cbn [index_of] in H. destruct (String.eqb y x) eqn:E.
  - injection H as <-. apply String.eqb_eq in E as ->. reflexivity.
  - destruct (index_of x l) as [k|]; [|discriminate].
    injection H as <-. apply (IH k eq_refl).
Qed.

Lemma index_of_elem_of (x : string) (l : list string) :
  x ∈ l -> exists i, index_of x l = Some i.
Proof.
  induction l as [|y l IH]; intros Hin; [by apply elem_of_nil in Hin|].
  cbn [index_of]. destruct (String.eqb y x) eqn:E; [by eexists|].
  apply elem_of_cons in Hin as [->|Hin].
  - rewrite String.eqb_refl in E. discriminate.
  - destruct (IH Hin) as [k ->]. by eexists.
Qed.

(** ** Toggling a list of handles *)

Lemma toggle_lines_lookup (shown : Q) (hs : list nat) (ax : Axes) (j : nat) :
  NoDup hs ->
  toggle_lines shown hs ax !! j
  = if decide (j ∈ hs) then toggle_alpha shown <$> ax !! j else ax !! j.
Proof.
  unfold toggle_lines. revert ax.
  induction hs as [|h hs IH]; intros ax Hnd; cbn [fold_left].
  - by rewrite decide_False by apply not_elem_of_nil.
  - apply NoDup_cons in Hnd as [Hh Hnd]. rewrite (IH _ Hnd).
    destruct (decide (j = h)) as [->|Hne].
    + rewrite (decide_False _ _ Hh), decide_True by (by left).
      apply list_lookup_alter_eq.
    + rewrite list_lookup_alter_ne by congruence.
      destruct (decide (j ∈ hs)) as [Hin|Hnin].
      * by rewrite decide_True by (by right).
      * rewrite decide_False; [reflexivity|].
        intros [?|?]%elem_of_cons; contradiction.
Qed.

Lemma handles_ok_nil (a : Q) (ax : Axes) : handles_ok a ax [].
Proof. split; constructor. Qed.

Lemma handles_ok_grow (a : Q) (ax ext : Axes) (hs : list nat) :
  handles_ok a ax hs -> handles_ok a (ax ++ ext) hs.
Proof.
  intros [Hnd Hall]. split; [exact Hnd|].
  eapply Forall_impl; [exact Hall|]. intros h (l & Hl & Ha).
  exists l. split; [by apply lookup_app_l_Some | exact Ha].
Qed.

Lemma handles_ok_snoc (a : Q) (ax : Axes) (hs : list nat) (l : Line2D) :
  handles_ok a ax hs -> line_alpha l = a ->
  handles_ok a (ax ++ [l]) (hs ++ [length ax]).
Proof.
  intros Hok Ha. pose proof (handles_ok_grow a ax [l] hs Hok) as [Hnd Hall].
  split.
  - apply NoDup_app. split; [exact Hnd|]. split; [|apply NoDup_singleton].
    intros h Hh ->%list_elem_of_singleton.
    destruct Hok as [_ Hold]. rewrite Forall_forall in Hold.
    destruct (Hold _ Hh) as (l' & Hl' & _). apply lookup_lt_Some in Hl'. lia.
  - apply Forall_app. split; [exact Hall|]. constructor; [|constructor].
    exists l. split; [by apply list_lookup_middle | exact Ha].
Qed.

Lemma toggle_twice (shown : Q) (l : Line2D) :
  0 < shown -> line_alpha l = shown ->
  toggle_alpha shown (toggle_alpha shown l) = l.
Proof.
  intros Hpos Ha. destruct l as [x y lb c a w]. cbn in Ha. subst a.
  unfold toggle_alpha, Qltb; cbn.
  destruct (Qle_bool shown 0) eqn:E.
  - apply Qle_bool_iff in E. lra.
  - reflexivity.
Qed.

Lemma click_twice (ms rs : list nat) (ax : Axes) :
  handles_ok 1 ax ms -> handles_ok (3 # 10) ax rs ->
  toggle_lines (3 # 10) rs
    (toggle_lines 1 ms (toggle_lines (3 # 10) rs (toggle_lines 1 ms ax)))
  = ax.
Proof.
  intros [Hndm Hm] [Hndr Hr]. apply list_eq. intros j.
  rewrite !toggle_lines_lookup by assumption.
  rewrite Forall_forall in Hm, Hr.
  destruct (decide (j ∈ rs)) as [Hjr|Hjr], (decide (j ∈ ms)) as [Hjm|Hjm].
  - destruct (Hm _ Hjm) as (l & Hl & Ha), (Hr _ Hjr) as (l' & Hl' & Ha').
    rewrite Hl in Hl'. injection Hl' as <-. rewrite Ha in Ha'. discriminate.
  - destruct (Hr _ Hjr) as (l & -> & Ha). cbn.
    by rewrite toggle_twice.
  - destruct (Hm _ Hjm) as (l & -> & Ha). cbn.
    by rewrite toggle_twice.
  - reflexivity.
Qed.

(** ** What [_plot_versions] keeps true of its collections *)

Lemma plot_runs_lines (self : TensorBoardPlotter) (colors : ColorCycle) (idx : nat)
  (dfs : list DataFrame) :
  forall st rs : RunsState,
    plot_runs self colors idx dfs st = inr rs ->
    handles_ok (3 # 10) (rs_ax st) (runs_lines st) ->
    (exists ext, rs_ax rs = rs_ax st ++ ext)
    /\ handles_ok (3 # 10) (rs_ax rs) (runs_lines rs).
Proof.
  induction dfs as [|df dfs IH]; intros st rs H Hok.
  - injection H as <-. split; [exists []; by rewrite app_nil_r | exact Hok].
  - cbn [plot_runs] in H.
    destruct (column df (x_axis self)) as [e|xs]; [discriminate|].
    cbn [bind] in H. destruct (plot_mean_only self).
    + apply IH in H as [Hext Hok']; [|exact Hok]. split; assumption.
    + cbn [ax_plot] in H. apply IH in H as [[ext Hext] Hok'].
      * cbn [rs_ax] in Hext. split; [|exact Hok'].
        eexists. rewrite Hext, <- app_assoc. reflexivity.
      * cbn [rs_ax runs_lines]. by apply handles_ok_snoc.
Qed.

Lemma Forall_handles_grow (a : Q) (ax ext : Axes) (colls : list (list nat)) :
  Forall (handles_ok a ax) colls -> Forall (handles_ok a (ax ++ ext)) colls.
Proof.
  intros H. eapply Forall_impl; [exact H|]. intros hs. apply handles_ok_grow.
Qed.

Lemma plot_versions_from_inv (self : TensorBoardPlotter) (colors : ColorCycle)
  (version_data : list VersionData) :
  forall (idx : nat) (st st' : PlotState),
    plot_versions_from self colors idx version_data st = inr st' ->
    plot_inv st -> plot_inv st'.
Proof.
  induction version_data as [|vdata rest IH]; intros idx st st' H Hinv.
  - by injection H as <-.
  - cbn [plot_versions_from] in H.
    destruct (plot_runs self colors idx (run_dataframes vdata) (runs_init (ps_ax st)))
      as [e|rs] eqn:Er; [discriminate|].
    cbn [bind] in H.
    apply plot_runs_lines in Er as [[ext Hext] Hrs]; [|apply handles_ok_nil].
    cbn [runs_init rs_ax] in Hext.
    destruct Hinv as (Hm & Hr & Hlen & Hleg).
    assert (Hnew : handles_ok (3 # 10) (rs_ax rs)
                     (if plot_mean_only self then [] else runs_lines rs))
      by (destruct (plot_mean_only self); [apply handles_ok_nil | exact Hrs]).
    assert (Hm' : Forall (handles_ok 1 (rs_ax rs)) (line_collections_main st))
      by (rewrite Hext; by apply Forall_handles_grow).
    assert (Hr' : Forall (handles_ok (3 # 10) (rs_ax rs)) (line_collections_runs st))
      by (rewrite Hext; by apply Forall_handles_grow).
    destruct (0 <? length (run_dataframes vdata))%nat.
    + destruct (version_mean (all_runs_values rs) (all_runs_x rs)) as [e|xy];
        [discriminate|].
      cbn [bind ax_plot] in H. apply IH in H; [exact H|].
      unfold plot_inv. cbn [ps_ax line_collections_main line_collections_runs legend_lines].
      rewrite !length_app. cbn [length]. repeat split.
      * apply Forall_app. split; [by apply Forall_handles_grow|].
        constructor; [|constructor].
        apply (handles_ok_snoc 1 (rs_ax rs) []); [apply handles_ok_nil | reflexivity].
      * apply Forall_app. split; [by apply Forall_handles_grow|].
        constructor; [|constructor]. by apply handles_ok_grow.
      * lia.
      * lia.
    + apply IH in H; [exact H|].
      unfold plot_inv. cbn [ps_ax line_collections_main line_collections_runs legend_lines].
      rewrite !length_app. cbn [length]. repeat split.
      * apply Forall_app. split; [exact Hm'|].
        constructor; [apply handles_ok_nil | constructor].
      * apply Forall_app. split; [exact Hr'|].
        constructor; [exact Hnew | constructor].
      * lia.
      * lia.
Qed.

Lemma length_omap_le {A B : Type} (f : A -> option B) (l : list A) :
  (length (omap f l) <= length l)%nat.
Proof.
  induction l as [|a l IH]; [reflexivity|].
  rewrite omap_cons_eq. destruct (f a); cbn [length]; lia.
Qed.

(** The figure [plot] shows: every collection names lines at its default
    display intensity, and every legend position has its two collections. *)
Lemma plot_shown_inv (fs : FileSystem) (colors : ColorCycle)
  (self : TensorBoardPlotter) (fig : Figure) :
  plot fs colors self = Shown fig ->
  Forall (handles_ok 1 (fig_lines fig)) (fig_main fig)
  /\ Forall (handles_ok (3 # 10) (fig_lines fig)) (fig_runs fig)
  /\ length (fig_main fig) = length (fig_runs fig)
  /\ (length (legend_lines_labels fig) <= length (fig_main fig))%nat.
Proof.
  unfold plot.
  destruct (_collect_version_data fs self (inverted_alpha (alpha self)))
    as [e|version_data]; [discriminate|].
  destruct (_plot_versions self colors [] version_data) as [e|st] eqn:E;
    [discriminate|].
  intros [= <-]. unfold _plot_versions in E.
  apply plot_versions_from_inv in E as (Hm & Hr & Hlen & Hleg).
  - cbn [fig_lines fig_main fig_runs legend_lines_labels].
    repeat split; try assumption.
    etransitivity; [apply length_omap_le | exact Hleg].
  - repeat split; cbn; try constructor.
Qed.

(** ** The legend labels and the versions *)








Lemma run_lines_at (runs : list (list nat)) (i : nat) (rs : list nat) :
  runs !! i = Some rs ->
  match runs with
  | [] => ret []
  | _ :: _ => match runs !! i with
              | None => raise IndexError
              | Some r => ret r
              end
  end = inr rs.
Proof. intros H. rewrite H. destruct runs; [discriminate | reflexivity]. Qed.

(** A click on a legend label of the figure [plot] shows hides the lines of
    the two collections at the position of the label in the legend, and
    changes no other line. *)
Lemma click_hides_collections_at_legend_position (fs : FileSystem)
  (colors : ColorCycle) (self : TensorBoardPlotter) (fig : Figure)
  (artist_label : string) :
  plot fs colors self = Shown fig ->
  artist_label ∈ legend_lines_labels fig ->
  exists (i : nat) (main_lines run_lines : list nat) (fig1 : Figure),
    index_of artist_label (legend_lines_labels fig) = Some i
    /\ fig_main fig !! i = Some main_lines
    /\ fig_runs fig !! i = Some run_lines
    /\ on_legend_click fig artist_label = inr fig1
    /\ forall j : nat,
         fig_lines fig1 !! j
         = if decide (j ∈ main_lines ++ run_lines)
           then (fun l => {| xdata := xdata l; ydata := ydata l; label := label l;
                             color := color l; line_alpha := 0;
                             linewidth := linewidth l |}) <$> fig_lines fig !! j
           else fig_lines fig !! j.
Proof.
  intros Hplot Hin.
  apply plot_shown_inv in Hplot as (Hm & Hr & Hlen & Hleg).
  pose proof (proj2 (contains_elem_of _ _) Hin) as Hc.
  destruct (index_of_elem_of _ _ Hin) as [i Hi].
  pose proof (lookup_lt_Some _ _ _ (index_of_lookup _ _ _ Hi)) as Hlt.
  destruct (lookup_lt_is_Some_2 (fig_main fig) i ltac:(lia)) as [ms Hms].
  destruct (lookup_lt_is_Some_2 (fig_runs fig) i ltac:(lia)) as [rs Hrs].
  exists i, ms, rs. eexists. split; [exact Hi|]. split; [exact Hms|].
  split; [exact Hrs|]. split.
  - unfold on_legend_click.
    rewrite Hc, Hi, Hms, (run_lines_at _ _ _ Hrs). reflexivity.
  - intros j. cbn [fig_lines].
    rewrite Forall_lookup in Hm, Hr.
    destruct (Hm i ms Hms) as [Hndm Hma], (Hr i rs Hrs) as [Hndr Hra].
    rewrite !toggle_lines_lookup by assumption.
    rewrite Forall_forall in Hma, Hra.
    destruct (decide (j ∈ rs)) as [Hjr|Hjr], (decide (j ∈ ms)) as [Hjm|Hjm].
    + destruct (Hma _ Hjm) as (l & Hl & Ha), (Hra _ Hjr) as (l' & Hl' & Ha').
      rewrite Hl in Hl'. injection Hl' as <-. rewrite Ha in Ha'. discriminate.
    + rewrite decide_True by (apply elem_of_app; by right).
      destruct (Hra _ Hjr) as (l & -> & Ha). cbn. unfold toggle_alpha.
      by rewrite Ha.
    + rewrite decide_True by (apply elem_of_app; by left).
      destruct (Hma _ Hjm) as (l & -> & Ha). cbn. unfold toggle_alpha.
      by rewrite Ha.
    + rewrite decide_False; [reflexivity|].
      intros [?|?]%elem_of_app; contradiction.
Qed.

(** C7. A click whose label is not among the legend labels returns the
    figure as it was: no line changes and nothing is raised. *)
Theorem unmatched_click_is_ignored (fig : Figure) (artist_label : string) :
  artist_label ∉ legend_lines_labels fig ->
  on_legend_click fig artist_label = inr fig.
Proof.
  intros Hnot. unfold on_legend_click.
  destruct (contains artist_label (legend_lines_labels fig)) eqn:E; [|reflexivity].
  apply contains_elem_of in E. contradiction.
Qed.

(** C6. On the figure [plot] shows, a click on a legend label succeeds, and
    a second click on the same label gives back the figure as it was before
    the two clicks. *)
Theorem double_click_restores (fs : FileSystem) (colors : ColorCycle)
  (self : TensorBoardPlotter) (fig : Figure) (artist_label : string) :
  plot fs colors self = Shown fig ->
  artist_label ∈ legend_lines_labels fig ->
  exists fig1,
    on_legend_click fig artist_label = inr fig1
    /\ on_legend_click fig1 artist_label = inr fig.
Proof.
  intros Hplot Hin.
  apply plot_shown_inv in Hplot as (Hm & Hr & Hlen & Hleg).
  pose proof (proj2 (contains_elem_of _ _) Hin) as Hc.
  destruct (index_of_elem_of _ _ Hin) as [i Hi].
  pose proof (lookup_lt_Some _ _ _ (index_of_lookup _ _ _ Hi)) as Hlt.
  destruct (lookup_lt_is_Some_2 (fig_main fig) i ltac:(lia)) as [ms Hms].
  destruct (lookup_lt_is_Some_2 (fig_runs fig) i ltac:(lia)) as [rs Hrs].
  pose proof (run_lines_at _ _ _ Hrs) as Hrun.
  unfold on_legend_click. rewrite Hc, Hi, Hms, Hrun. cbn [bind].
  eexists. split; [reflexivity|].
  cbn [legend_lines_labels fig_main fig_runs fig_lines].
  rewrite Hc, Hi, Hms, Hrun. cbn [bind].
  rewrite click_twice.
  - by destruct fig.
  - rewrite Forall_lookup in Hm. exact (Hm i ms Hms).
  - rewrite Forall_lookup in Hr. exact (Hr i rs Hrs).
Qed.

(** ** Sorting keeps the entries *)

Lemma existsb_insert_sorted {A : Type} (f : string * A -> bool) (e : string * A)
  (l : list (string * A)) :
  existsb f (insert_sorted e l) = f e || existsb f l.
Proof.
  induction l as [|e' l IH]; cbn [insert_sorted existsb]; [reflexivity|].
  destruct (String.leb (fst e) (fst e')); cbn [existsb]; [reflexivity|].
  rewrite IH. destruct (f e), (f e'); reflexivity.
Qed.

Lemma existsb_sorted {A : Type} (f : string * A -> bool) (l : list (string * A)) :
  existsb f (sorted l) = existsb f l.
Proof.
  unfold sorted. induction l as [|e l IH]; cbn [fold_right existsb]; [reflexivity|].
  by rewrite existsb_insert_sorted, IH.
Qed.

(** ** [_collect_version_data] and the decay factor *)




Lemma collect_runs_ok (metric : string) (d : Q)
  (children : list (string * VersionChild)) :
  0 < d <= 1 -> exists dfs, collect_runs metric d children = inr dfs.
Proof.
  intros Hd. induction children as [|[name [content|ea]] rest IH];
    cbn [collect_runs]; [by eexists | exact IH |].
  destruct (extract_no_error metric ea d Hd) as [df ->].
  destruct IH as [dfs ->]. by eexists.
Qed.

Lemma collect_versions_ok (metric : string) (d : Q)
  (entries : list (string * LogChild)) :
  0 < d <= 1 -> exists version_data, collect_versions metric d entries = inr version_data.
Proof.
  intros Hd. induction entries as [|[name [|children]] rest IH];
    cbn [collect_versions]; [by eexists | exact IH |].
  destruct (collect_runs_ok metric d (sorted children) Hd) as [dfs ->].
  destruct IH as [vd ->]. by eexists.
Qed.

(** ** [_plot_versions] raises only for an unknown column *)

Lemma column_ok (df : DataFrame) (name : string) :
  known_column name = true -> exists xs, column df name = inr xs.
Proof.
  unfold known_column, column. intros H.
  destruct (String.eqb name "wall_time"); [by eexists|].
  destruct (String.eqb name "step"); [by eexists|].
  destruct (String.eqb name "value"); [by eexists | discriminate].
Qed.

Lemma plot_runs_ok (self : TensorBoardPlotter) (colors : ColorCycle) (idx : nat)
  (dfs : list DataFrame) :
  known_column (x_axis self) = true ->
  forall st, exists rs, plot_runs self colors idx dfs st = inr rs.
Proof.
  intros Hx. induction dfs as [|df dfs IH]; intros st; cbn [plot_runs]; [by eexists|].
  destruct (column_ok df _ Hx) as [xs ->]. cbn [bind].
  destruct (if plot_mean_only self then _ else _) as [ax lines]. apply IH.
Qed.

Lemma plot_versions_from_ok (self : TensorBoardPlotter) (colors : ColorCycle)
  (version_data : list VersionData) :
  known_column (x_axis self) = true ->
  forall idx st, exists st', plot_versions_from self colors idx version_data st = inr st'.
Proof.
  intros Hx. induction version_data as [|vdata rest IH]; intros idx st;
    cbn [plot_versions_from]; [by eexists|].
  destruct (plot_runs_ok self colors idx (run_dataframes vdata) Hx (runs_init (ps_ax st)))
    as [rs Hrs].
  rewrite Hrs. cbn [bind].
  destruct (0 <? length (run_dataframes vdata))%nat eqn:Elen; [|apply IH].
  apply plot_runs_series in Hrs as [_ (xs & Hxs & Hall)].
  cbn [runs_init all_runs_x app] in Hxs.
  unfold version_mean. rewrite Hxs.
  destruct (last xs) as [x_last|] eqn:El.
  - cbn [bind ax_plot]. apply IH.
  - apply last_None in El. rewrite El in Hall. apply Forall2_nil_inv_l in Hall.
    rewrite Hall in Elen. discriminate.
Qed.

Lemma plot_versions_from_empty (self : TensorBoardPlotter) (colors : ColorCycle)
  (version_data : list VersionData) :
  Forall (fun v => run_dataframes v = []) version_data ->
  forall idx st, exists st',
    plot_versions_from self colors idx version_data st = inr st'
    /\ ps_ax st' = ps_ax st /\ legend_lines st' = legend_lines st.
Proof.
  induction 1 as [|vdata rest Hv _ IH]; intros idx st; cbn [plot_versions_from].
  - by eexists.
  - rewrite Hv. cbn [plot_runs bind length Nat.ltb Nat.leb runs_init rs_ax].
    destruct (IH (S idx)
                {| ps_ax := ps_ax st;
                   line_collections_main := line_collections_main st ++ [[]];
                   line_collections_runs :=
                     line_collections_runs st
                       ++ [if plot_mean_only self then [] else []];
                   legend_lines := legend_lines st |})
      as (st' & Hst' & Hax & Hleg).
    exists st'. split; [exact Hst' | split; assumption].
Qed.




(** C2. The code at the input that breaks the claim: version [a_empty] has
    no run with the metric and precedes version [b].  The legend holds the
    one label [b], at position 0, and position 0 of the collections is the
    empty placeholder of [a_empty]; a click on [b] changes no line, so the
    run line 0 and the mean line 1 of [b] keep their display intensity. *)
Lemma click_after_empty_version_misses :
  exists fig,
    plot empty_first_fs default_colors (plotter_with_alpha 0) = Shown fig
    /\ legend_lines_labels fig = ["b"]
    /\ fig_main fig = [[]; [1]]%nat
    /\ fig_runs fig = [[]; [0]]%nat
    /\ map line_alpha (fig_lines fig) = [3 # 10; 1]
    /\ on_legend_click fig "b" = inr fig.
Proof.
  eexists. split; [vm_compute; reflexivity|].
  repeat (split; [vm_compute; reflexivity|]). vm_compute; reflexivity.
Qed.

(** C10. The code at the input that breaks the claim: versions [x1] and
    [x2] both carry the label [X], and [a_empty], without data, precedes
    them.  A click on [X] changes no line, so it does not toggle the lines of
    [x1]; a click on [z] hides the run line 2 and the mean line 3 of [x2],
    the later version carrying the duplicate label. *)
Lemma click_with_duplicate_labels_shifted :
  exists fig fig_z,
    plot duplicate_alias_fs default_colors (plotter_with_alpha 0) = Shown fig
    /\ legend_lines_labels fig = ["X"; "X"; "z"]
    /\ fig_main fig = [[]; [1]; [3]; [5]]%nat
    /\ fig_runs fig = [[]; [0]; [2]; [4]]%nat
    /\ map line_alpha (fig_lines fig) = [3 # 10; 1; 3 # 10; 1; 3 # 10; 1]
    /\ on_legend_click fig "X" = inr fig
    /\ on_legend_click fig "z" = inr fig_z
    /\ map line_alpha (fig_lines fig_z) = [3 # 10; 1; 0; 0; 3 # 10; 1].
Proof.
  eexists. eexists. split; [vm_compute; reflexivity|].
  repeat (split; [vm_compute; reflexivity|]). vm_compute; reflexivity.
Qed.

Lemma unmatched_click_is_ignored_witness :
  exists fig,
    plot duplicate_alias_fs default_colors (plotter_with_alpha 0) = Shown fig
    /\ ("nonexistent" ∉ legend_lines_labels fig)
    /\ on_legend_click fig "nonexistent" = inr fig.
Proof.
  eexists. split; [vm_compute; reflexivity|].
  assert (Hnot : "nonexistent" ∉ ["X"; "X"; "z"]).
  { intros H. apply contains_elem_of in H. discriminate. }
  split; [exact Hnot|].
  apply unmatched_click_is_ignored. exact Hnot.
Defined.

Lemma double_click_restores_witness :
  exists fig,
    plot lengths_fs default_colors (plotter_with_alpha 0) = Shown fig
    /\ ("v1" ∈ legend_lines_labels fig)
    /\ exists fig1,
         on_legend_click fig "v1" = inr fig1
         /\ on_legend_click fig1 "v1" = inr fig.
Proof.
  eexists. split; [vm_compute; reflexivity|].
  split; [by left|].
  apply (double_click_restores lengths_fs default_colors (plotter_with_alpha 0));
    [vm_compute; reflexivity | by left].
Defined.

(** * More properties of the code *)

(** ** The lines [_plot_versions] draws *)

Lemma plot_runs_closed (self : TensorBoardPlotter) (colors : ColorCycle) (idx : nat)
  (dfs : list DataFrame) :
  forall st rs : RunsState,
    plot_runs self colors idx dfs st = inr rs ->
    rs_ax rs
    = rs_ax st ++ (if plot_mean_only self then []
                   else run_lines_from self colors idx (length (rs_ax st)) dfs)
    /\ runs_lines rs
       = runs_lines st ++ (if plot_mean_only self then []
                           else seq (length (rs_ax st)) (length dfs))
    /\ all_runs_values rs = all_runs_values st ++ map value_column dfs
    /\ all_runs_x rs = all_runs_x st ++ map (x_values self) dfs
    /\ Forall (fun df => column df (x_axis self) = inr (x_values self df)) dfs.
Proof.
  induction dfs as [|df dfs IH]; intros st rs H.
  - injection H as <-. unfold run_lines_from. cbn [map length seq zip_with].
    destruct (plot_mean_only self); rewrite !app_nil_r; repeat split; constructor.
  - cbn [plot_runs] in H. unfold x_values at 1. cbn [map].
    destruct (column df (x_axis self)) as [e|xs] eqn:Ex; [discriminate|].
    cbn [bind] in H.
    assert (Hmin : Nat.min (length df) (length (value_column df)) = length df)
      by (unfold value_column; rewrite length_map; lia).
    rewrite Hmin in H.
    assert (Hy : take (length df) (value_column df) = value_column df)
      by (apply take_ge; unfold value_column; rewrite length_map; lia).
    assert (Hx : take (length df) xs = xs)
      by (apply take_ge; apply column_length in Ex; lia).
    rewrite Hx, Hy in H.
    assert (Hcol : column df (x_axis self) = inr (x_values self df))
      by (unfold x_values; by rewrite Ex).
    destruct (plot_mean_only self).
    + apply IH in H as (H1 & H2 & H3 & H4 & H5).
      cbn [rs_ax runs_lines all_runs_values all_runs_x] in *.
      rewrite H1, H2, H3, H4, <- !app_assoc.
      repeat split; try reflexivity. by constructor.
    + cbn [ax_plot] in H. apply IH in H as (H1 & H2 & H3 & H4 & H5).
      cbn [rs_ax runs_lines all_runs_values all_runs_x] in *.
      rewrite H1, H2, H3, H4, <- !app_assoc, length_app. cbn [length seq app].
      rewrite Nat.add_1_r. unfold run_lines_from. cbn [length seq zip_with].
      unfold run_line at 2, x_values at 1. rewrite Ex.
      repeat split; try reflexivity. by constructor.
Qed.

Lemma length_run_lines_from (self : TensorBoardPlotter) (colors : ColorCycle)
  (k n : nat) (dfs : list DataFrame) :
  length (run_lines_from self colors k n dfs) = length dfs.
Proof.
  unfold run_lines_from. rewrite length_zip_with, length_seq. lia.
Qed.

Lemma version_drawn_grow (self : TensorBoardPlotter) (colors : ColorCycle)
  (ax ext : Axes) (k : nat) (v : VersionData) (ms rs : list nat) :
  version_drawn self colors ax k v ms rs ->
  version_drawn self colors (ax ++ ext) k v ms rs.
Proof.
  intros (Hc & Hr & Hm). split; [exact Hc|]. split.
  - destruct (plot_mean_only self); [exact Hr|].
    eapply Forall2_impl; [exact Hr|]. intros h df Hl. by apply lookup_app_l_Some.
  - destruct (has_data v); [|exact Hm].
    destruct Hm as (h & l & -> & Hl & Hml). exists h, l.
    split; [reflexivity|]. split; [by apply lookup_app_l_Some | exact Hml].
Qed.

Lemma run_lines_drawn (self : TensorBoardPlotter) (colors : ColorCycle) (k : nat)
  (ax : Axes) (dfs : list DataFrame) :
  Forall2 (fun h df => (ax ++ run_lines_from self colors k (length ax) dfs) !! h
                       = Some (run_line self colors k h df))
          (seq (length ax) (length dfs)) dfs.
Proof.
  revert ax. unfold run_lines_from.
  induction dfs as [|df dfs IH]; intros ax; cbn [zip_with length seq].
  - constructor.
  - constructor; [by apply list_lookup_middle|].
    specialize (IH (ax ++ [run_line self colors k (length ax) df])).
    rewrite length_app, <- app_assoc in IH. cbn [length app] in IH.
    rewrite Nat.add_1_r in IH. exact IH.
Qed.

Lemma zip_with_app_snoc (runs mains : list (list nat)) (r m : list nat) :
  length runs = length mains ->
  concat (zip_with app (runs ++ [r]) (mains ++ [m]))
  = concat (zip_with app runs mains) ++ r ++ m.
Proof.
  intros Hlen. rewrite zip_with_app by exact Hlen.
  rewrite concat_app. cbn [zip_with concat]. by rewrite app_nil_r.
Qed.

Lemma plot_versions_from_drawn (self : TensorBoardPlotter) (colors : ColorCycle)
  (version_data : list VersionData) :
  forall (done : list VersionData) (st st' : PlotState),
    plot_versions_from self colors (length done) version_data st = inr st' ->
    drawn_inv self colors done st ->
    drawn_inv self colors (done ++ version_data) st'.
Proof.
  induction version_data as [|v rest IH]; intros done st st' H Hinv.
  - injection H as <-. by rewrite app_nil_r.
  - cbn [plot_versions_from] in H.
    destruct (plot_runs self colors (length done) (run_dataframes v)
                (runs_init (ps_ax st))) as [e|rs] eqn:Er; [discriminate|].
    cbn [bind] in H.
    apply plot_runs_closed in Er as (Hax & Hrl & Hval & Hx & Hcol).
    cbn [runs_init rs_ax runs_lines all_runs_values all_runs_x app] in Hax, Hrl, Hval, Hx.
    destruct Hinv as (Hlm & Hlr & Hcat & Hall).
    set (R := if plot_mean_only self then []
              else run_lines_from self colors (length done) (length (ps_ax st))
                     (run_dataframes v)) in *.
    set (r := if plot_mean_only self then [] else runs_lines rs) in *.
    assert (Hr : r = seq (length (ps_ax st)) (length R)).
    { subst r R. rewrite Hrl. destruct (plot_mean_only self); [reflexivity|].
      by rewrite length_run_lines_from. }
    assert (Hruns : if plot_mean_only self then r = []
                    else Forall2 (fun h df => rs_ax rs !! h
                                    = Some (run_line self colors (length done) h df))
                                 r (run_dataframes v)).
    { subst r R. rewrite Hax, Hrl. destruct (plot_mean_only self); [reflexivity|].
      apply run_lines_drawn. }
    assert (Hold : forall ext k v0 ms0 rs0,
              done !! k = Some v0 ->
              line_collections_main st !! k = Some ms0 ->
              line_collections_runs st !! k = Some rs0 ->
              version_drawn self colors (rs_ax rs ++ ext) k v0 ms0 rs0).
    { intros ext k v0 ms0 rs0 H1 H2 H3. rewrite Hax, <- app_assoc.
      apply version_drawn_grow. by apply Hall. }
    assert (Hstep : forall (ax' : Axes) (m : list nat) (st1 : PlotState),
              ps_ax st1 = ax' ->
              line_collections_main st1 = line_collections_main st ++ [m] ->
              line_collections_runs st1 = line_collections_runs st ++ [r] ->
              (exists ext, ax' = rs_ax rs ++ ext) ->
              r ++ m = seq (length (ps_ax st)) (length ax' - length (ps_ax st)) ->
              (length (ps_ax st) <= length ax')%nat ->
              (if has_data v
               then exists h l, m = [h] /\ ax' !! h = Some l
                                /\ mean_line_of self colors (length done) v h l
               else m = []) ->
              drawn_inv self colors (done ++ [v]) st1).
    { intros ax' m st1 E1 E2 E3 [ext Hext] Hseq Hle Hmean.
      unfold drawn_inv. rewrite E1, E2, E3, !length_app. cbn [length].
      split; [lia|]. split; [lia|]. split.
      - rewrite zip_with_app_snoc by lia. rewrite Hcat, Hseq, <- seq_app.
        f_equal. lia.
      - intros k v0 ms0 rs0 Hk Hm0 Hr0.
        destruct (decide (k < length done)%nat) as [Hlt|Hge].
        + rewrite lookup_app_l in Hk by lia. rewrite lookup_app_l in Hm0 by lia.
          rewrite lookup_app_l in Hr0 by lia.
          rewrite Hext. by apply Hold.
        + assert (k = length done).
          { apply lookup_lt_Some in Hk. rewrite length_app in Hk.
            cbn [length] in Hk. lia. }
          subst k.
          rewrite list_lookup_middle in Hk by reflexivity.
          rewrite list_lookup_middle in Hm0 by lia.
          rewrite list_lookup_middle in Hr0 by lia.
          injection Hk as <-. injection Hm0 as <-. injection Hr0 as <-.
          split; [exact Hcol|]. split; [|exact Hmean].
          destruct (plot_mean_only self); [exact Hruns|].
          rewrite Hext. eapply Forall2_impl; [exact Hruns|].
          intros h df Hl. by apply lookup_app_l_Some. }
    assert (Hlen_ax : length (rs_ax rs) = (length (ps_ax st) + length R)%nat)
      by (rewrite Hax; apply length_app).
    replace (S (length done)) with (length (done ++ [v])) in H
      by (rewrite length_app; cbn [length]; lia).
    unfold has_data in Hstep.
    destruct (0 <? length (run_dataframes v))%nat eqn:Edata.
    + destruct (version_mean (all_runs_values rs) (all_runs_x rs)) as [e|xy] eqn:Em;
        [discriminate|].
      cbn [bind ax_plot] in H. apply IH in H.
      * by rewrite <- app_assoc in H.
      * eapply Hstep; cbn [ps_ax line_collections_main line_collections_runs];
          try reflexivity.
        -- by eexists.
        -- rewrite length_app, Hlen_ax, Hr. cbn [length].
           replace (length (ps_ax st) + length R + 1 - length (ps_ax st))%nat
             with (length R + 1)%nat by lia.
           rewrite seq_app. cbn [seq]. reflexivity.
        -- rewrite length_app, Hlen_ax. lia.
        -- eexists _, _. split; [reflexivity|].
           split; [by apply list_lookup_middle|].
           unfold mean_line_of.
           cbn [set_label label color line_alpha linewidth xdata ydata].
           rewrite <- Hval, <- Hx, Em. by destruct xy.
    + apply IH in H.
      * by rewrite <- app_assoc in H.
      * eapply Hstep; cbn [ps_ax line_collections_main line_collections_runs];
          try reflexivity.
        -- exists []. by rewrite app_nil_r.
        -- rewrite app_nil_r, Hlen_ax, Hr. f_equal. lia.
        -- rewrite Hlen_ax. lia.
Qed.

Lemma plot_versions_drawn (self : TensorBoardPlotter) (colors : ColorCycle)
  (version_data : list VersionData) (st : PlotState) :
  _plot_versions self colors [] version_data = inr st ->
  drawn_inv self colors version_data st.
Proof.
  unfold _plot_versions. intros H.
  apply (plot_versions_from_drawn self colors version_data []) in H; [exact H|].
  split; [reflexivity|]. split; [reflexivity|]. split; [reflexivity|].
  intros k v ms rs Hk. discriminate.
Qed.

Lemma version_drawn_at (self : TensorBoardPlotter)
  (colors : ColorCycle) (version_data : list VersionData) (st : PlotState)
  (k : nat) (v : VersionData) :
  _plot_versions self colors [] version_data = inr st ->
  version_data !! k = Some v ->
  exists ms rs,
    line_collections_main st !! k = Some ms
    /\ line_collections_runs st !! k = Some rs
    /\ version_drawn self colors (ps_ax st) k v ms rs.
Proof.
  intros H Hk. apply plot_versions_drawn in H as (Hlm & Hlr & _ & Hall).
  pose proof (lookup_lt_Some _ _ _ Hk) as Hlt.
  destruct (lookup_lt_is_Some_2 (line_collections_main st) k ltac:(lia)) as [ms Hms].
  destruct (lookup_lt_is_Some_2 (line_collections_runs st) k ltac:(lia)) as [rs Hrs].
  exists ms, rs. split; [exact Hms|]. split; [exact Hrs|]. by apply Hall.
Qed.


(** X2. The handles in the collections number the lines of the axes in
    creation order: version by version, the run lines and then the mean
    line.  So every line belongs to one version and no handle occurs
    twice. *)
Theorem plot_versions_handles_in_order (self : TensorBoardPlotter)
  (colors : ColorCycle) (version_data : list VersionData) (st : PlotState) :
  _plot_versions self colors [] version_data = inr st ->
  length (line_collections_main st) = length version_data
  /\ length (line_collections_runs st) = length version_data
  /\ concat (zip_with app (line_collections_runs st) (line_collections_main st))
     = seq 0 (length (ps_ax st)).
Proof.
  intros H. apply plot_versions_drawn in H as (Hlm & Hlr & Hcat & _).
  repeat split; assumption.
Qed.

Lemma lines_of_versions_cons (self : TensorBoardPlotter) (v : VersionData)
  (rest : list VersionData) :
  lines_of_versions self (v :: rest)
  = (lines_of_version self v + lines_of_versions self rest)%nat.
Proof. reflexivity. Qed.

Lemma lines_of_versions_mean_only (self : TensorBoardPlotter)
  (version_data : list VersionData) :
  plot_mean_only self = true ->
  lines_of_versions self version_data = length (List.filter has_data version_data).
Proof.
  intros Hm. induction version_data as [|v rest IH]; [reflexivity|].
  rewrite lines_of_versions_cons, IH. cbn [List.filter].
  unfold lines_of_version. rewrite Hm. destruct (has_data v); reflexivity.
Qed.

Lemma plot_versions_from_count (self : TensorBoardPlotter) (colors : ColorCycle)
  (version_data : list VersionData) :
  forall (idx : nat) (st st' : PlotState),
    plot_versions_from self colors idx version_data st = inr st' ->
    exists ext,
      ps_ax st' = ps_ax st ++ ext
      /\ length ext = lines_of_versions self version_data
      /\ length (legend_lines st')
         = (length (legend_lines st)
            + length (List.filter has_data version_data))%nat
      /\ (plot_mean_only self = true ->
          Forall (fun l => line_alpha l = 1 /\ linewidth l = 2) ext).
Proof.
  induction version_data as [|v rest IH]; intros idx st st' H.
  - injection H as <-. exists []. rewrite app_nil_r. cbn.
    repeat split; [lia | constructor].
  - cbn [plot_versions_from] in H.
    destruct (plot_runs self colors idx (run_dataframes v) (runs_init (ps_ax st)))
      as [e|rs] eqn:Er; [discriminate|].
    cbn [bind] in H. apply plot_runs_closed in Er as (Hax & _).
    cbn [runs_init rs_ax] in Hax.
    rewrite lines_of_versions_cons. cbn [List.filter].
    unfold lines_of_version.
    change (0 <? length (run_dataframes v))%nat with (has_data v) in H.
    destruct (has_data v).
    + destruct (version_mean (all_runs_values rs) (all_runs_x rs)) as [e|xy];
        [discriminate|].
      cbn [bind ax_plot] in H. apply IH in H as (ext & H1 & H2 & H3 & H4).
      cbn [ps_ax legend_lines] in H1, H3. rewrite Hax, <- !app_assoc in H1.
      eexists. split; [exact H1|]. rewrite !length_app in *. cbn [length] in *.
      split; [|split].
      * rewrite H2. destruct (plot_mean_only self); [reflexivity|].
        rewrite length_run_lines_from. lia.
      * lia.
      * intros Hm. rewrite Hm. cbn [app]. constructor; [by split | by apply H4].
    + apply IH in H as (ext & H1 & H2 & H3 & H4).
      cbn [ps_ax legend_lines] in H1, H3. rewrite Hax, <- !app_assoc in H1.
      eexists. split; [exact H1|]. rewrite !length_app in *.
      split; [|split].
      * rewrite H2. destruct (plot_mean_only self); [reflexivity|].
        rewrite length_run_lines_from. lia.
      * lia.
      * intros Hm. rewrite Hm. cbn [app]. by apply H4.
Qed.

(** X3. The axes hold one line per run with data, none of them in
    mean-only mode, and one mean line, with its legend entry, per version
    with data; in mean-only mode every run collection is empty and every
    line is an opaque thick mean line. *)
Theorem plot_versions_line_count (self : TensorBoardPlotter)
  (colors : ColorCycle) (version_data : list VersionData) (st : PlotState) :
  _plot_versions self colors [] version_data = inr st ->
  length (ps_ax st) = lines_of_versions self version_data
  /\ length (legend_lines st) = length (List.filter has_data version_data)
  /\ (plot_mean_only self = true ->
      length (ps_ax st) = length (List.filter has_data version_data)
      /\ Forall (fun rs => rs = []) (line_collections_runs st)
      /\ Forall (fun l => line_alpha l = 1 /\ linewidth l = 2) (ps_ax st)).
Proof.
  intros H. pose proof (plot_versions_drawn _ _ _ _ H) as (Hlm & Hlr & _ & Hall).
  unfold _plot_versions in H.
  apply plot_versions_from_count in H as (ext & H1 & H2 & H3 & H4).
  cbn [ps_ax legend_lines app length Nat.add] in H1, H3. subst ext.
  split; [exact H2|]. split; [exact H3|]. intros Hm.
  split; [by rewrite H2, lines_of_versions_mean_only|].
  split; [|by apply H4].
  apply Forall_lookup. intros k rs Hrs.
  pose proof (lookup_lt_Some _ _ _ Hrs) as Hlt.
  destruct (lookup_lt_is_Some_2 version_data k ltac:(lia)) as [v Hv].
  destruct (lookup_lt_is_Some_2 (line_collections_main st) k ltac:(lia)) as [ms Hms].
  destruct (Hall k v ms rs Hv Hms Hrs) as (_ & Hr & _). by rewrite Hm in Hr.
Qed.

(** ** The mean line *)

Lemma last_map {A B : Type} (f : A -> B) (l : list A) :
  last (map f l) = f <$> last l.
Proof.
  induction l as [|a l IH]; [reflexivity|].
  destruct l as [|b l]; [reflexivity|]. exact IH.
Qed.

Lemma column_x_values_length (self : TensorBoardPlotter) (df : DataFrame) :
  column df (x_axis self) = inr (x_values self df) ->
  length (x_values self df) = length df.
Proof. apply column_length. Qed.

Lemma mean_cells_single (v : Q) : mean_cells [v] == v.
Proof. unfold mean_cells. cbn. field. Qed.

(** X4. The x values of the mean line of a version are the x column of the
    last run of the version in iteration order, whole, and the mean line has
    as many y values. *)
Theorem mean_line_x_is_last_run (self : TensorBoardPlotter)
  (colors : ColorCycle) (version_data : list VersionData) (st : PlotState)
  (k : nat) (v : VersionData) (df_last : DataFrame) :
  _plot_versions self colors [] version_data = inr st ->
  version_data !! k = Some v ->
  last (run_dataframes v) = Some df_last ->
  exists h l,
    line_collections_main st !! k = Some [h]
    /\ ps_ax st !! h = Some l
    /\ column df_last (x_axis self) = inr (xdata l)
    /\ length (ydata l) = length (xdata l).
Proof.
  intros H Hk Hlast.
  destruct (version_drawn_at _ _ _ _ _ _ H Hk)
    as (ms & rs & Hms & _ & Hcol & _ & Hmean).
  assert (Hdata : has_data v = true).
  { unfold has_data. destruct (run_dataframes v); [discriminate | reflexivity]. }
  rewrite Hdata in Hmean. destruct Hmean as (h & l & -> & Hl & _ & _ & _ & _ & Hvm).
  exists h, l. split; [exact Hms|]. split; [exact Hl|].
  unfold version_mean in Hvm. rewrite last_map, Hlast in Hvm. cbn [fmap option_fmap option_map] in Hvm.
  assert (Hin : df_last ∈ run_dataframes v).
  { apply last_Some in Hlast as [l' ->]. apply elem_of_app. right. by left. }
  rewrite Forall_forall in Hcol. pose proof (Hcol _ Hin) as Hc.
  pose proof (column_x_values_length _ _ Hc) as Hlen.
  assert (Hmax : (length df_last <= max_length (map value_column (run_dataframes v)))%nat).
  { replace (length df_last) with (length (value_column df_last))
      by (unfold value_column; apply length_map).
    apply max_length_ge, list_elem_of_In, in_map, list_elem_of_In, Hin. }
  rewrite concat_mean_length, Hlen in Hvm.
  replace (Nat.min (length df_last) (max_length (map value_column (run_dataframes v))))
    with (length df_last) in Hvm by lia.
  injection Hvm as Hx Hy.
  rewrite <- Hx, <- Hy, take_ge by lia. split; [exact Hc|].
  rewrite length_take, concat_mean_length. lia.
Qed.

(** X5. For a version with a single run the mean line shows the run itself:
    the same x values and, position by position, the smoothed values of the
    run. *)
Theorem single_run_mean_line (self : TensorBoardPlotter)
  (colors : ColorCycle) (version_data : list VersionData) (st : PlotState)
  (k : nat) (v : VersionData) (df : DataFrame) :
  _plot_versions self colors [] version_data = inr st ->
  version_data !! k = Some v ->
  run_dataframes v = [df] ->
  exists h l,
    line_collections_main st !! k = Some [h]
    /\ ps_ax st !! h = Some l
    /\ column df (x_axis self) = inr (xdata l)
    /\ Forall2 Qeq (ydata l) (value_column df).
Proof.
  intros H Hk Hv.
  destruct (version_drawn_at _ _ _ _ _ _ H Hk)
    as (ms & rs & Hms & _ & Hcol & _ & Hmean).
  unfold has_data in Hmean. rewrite Hv in Hmean, Hcol. cbn in Hmean.
  destruct Hmean as (h & l & -> & Hl & _ & _ & _ & _ & Hvm).
  exists h, l. split; [exact Hms|]. split; [exact Hl|].
  apply Forall_cons in Hcol as [Hcol _].
  pose proof (column_x_values_length _ _ Hcol) as Hlen.
  unfold version_mean in Hvm. rewrite Hv in Hvm. cbn [map last] in Hvm.
  rewrite concat_mean_length, Hlen in Hvm. unfold max_length in Hvm.
  cbn [map fold_right] in Hvm. unfold value_column at 1 in Hvm.
  rewrite length_map, Nat.max_0_r, Nat.min_id in Hvm.
  injection Hvm as Hx Hy. rewrite <- Hx, <- Hy, take_ge by lia.
  split; [exact Hcol|].
  apply Forall2_same_length_lookup. split.
  - rewrite length_take, concat_mean_length. unfold max_length, value_column.
    cbn [map fold_right]. rewrite length_map. lia.
  - intros i y y' Hy1 Hy2. apply lookup_take_Some in Hy1 as [Hy1 Hi].
    rewrite concat_mean_lookup in Hy1.
    + injection Hy1 as <-. rewrite Hy2.
      apply mean_cells_single.
    + unfold max_length, value_column. cbn [map fold_right]. rewrite length_map. lia.
Qed.

(** ** What [_collect_version_data] returns *)

Lemma extract_frame_rows (metric : string) (ea : Scalars) (d : Q) (df : DataFrame) :
  _extract_and_smooth_metrics metric ea d = inr df ->
  df_empty df = negb (run_has_metric metric ("", RunDir ea)).
Proof.
  unfold run_has_metric. cbn [snd]. unfold _extract_and_smooth_metrics.
  destruct (assoc metric ea) as [series|]; [|by intros [= <-]].
  destruct (ewm_mean d (value_column (events series))) as [e|out] eqn:E;
    [discriminate|].
  intros [= <-]. apply ewm_mean_length in E.
  unfold value_column in E. rewrite length_map in E.
  unfold events in *. destruct out; [discriminate | reflexivity].
Qed.

Lemma collect_runs_frames (metric : string) (d : Q)
  (children : list (string * VersionChild)) (dfs : list DataFrame) :
  collect_runs metric d children = inr dfs ->
  length dfs = length (List.filter (run_has_metric metric) children)
  /\ Forall (fun df : DataFrame => df <> []) dfs.
Proof.
  revert dfs. induction children as [|[name [content|ea]] rest IH]; intros dfs H;
    cbn [collect_runs] in H.
  - injection H as <-. split; [reflexivity | constructor].
  - cbn [List.filter]. unfold run_has_metric at 1. cbn [snd]. by apply IH.
  - destruct (_extract_and_smooth_metrics metric ea d) as [e|df] eqn:Ex;
      [discriminate|].
    cbn [bind] in H.
    destruct (collect_runs metric d rest) as [e|dfs'] eqn:Er; [discriminate|].
    cbn [bind] in H. injection H as <-.
    destruct (IH dfs' eq_refl) as [Hlen Hne].
    apply extract_frame_rows in Ex. cbn [List.filter].
    change (run_has_metric metric (name, RunDir ea))
      with (run_has_metric metric ("", RunDir ea)).
    destruct (run_has_metric metric ("", RunDir ea)); cbn [negb] in Ex; rewrite Ex.
    + cbn [length]. split; [by rewrite Hlen|]. constructor; [|exact Hne].
      intros ->. discriminate.
    + split; assumption.
Qed.

Lemma filter_insert_sorted_length {A : Type} (f : string * A -> bool)
  (e : string * A) (l : list (string * A)) :
  length (List.filter f (insert_sorted e l)) = length (List.filter f (e :: l)).
Proof.
  induction l as [|e' l IH]; [reflexivity|]. cbn [insert_sorted].
  destruct (String.leb (fst e) (fst e')); [reflexivity|].
  cbn [List.filter] in *. destruct (f e'), (f e); cbn [length] in *; lia.
Qed.

Lemma filter_sorted_length {A : Type} (f : string * A -> bool)
  (l : list (string * A)) :
  length (List.filter f (sorted l)) = length (List.filter f l).
Proof.
  unfold sorted. induction l as [|e l IH]; [reflexivity|]. cbn [fold_right].
  rewrite filter_insert_sorted_length. cbn [List.filter].
  destruct (f e); cbn [length]; by rewrite IH.
Qed.

Lemma collect_versions_shape (metric : string) (d : Q)
  (entries : list (string * LogChild)) (version_data : list VersionData) :
  collect_versions metric d entries = inr version_data ->
  Forall2 (collected_from metric) version_data (version_dirs entries).
Proof.
  revert version_data.
  induction entries as [|[name [|children]] rest IH]; intros vd H;
    cbn [collect_versions] in H; unfold version_dirs; rewrite ?omap_cons_eq;
    cbn [snd fst].
  - injection H as <-. constructor.
  - by apply IH.
  - destruct (collect_runs metric d (sorted children)) as [e|dfs] eqn:Er;
      [discriminate|].
    cbn [bind] in H.
    destruct (collect_versions metric d rest) as [e|vd'] eqn:Ev; [discriminate|].
    cbn [bind] in H. injection H as <-.
    apply collect_runs_frames in Er as [Hlen Hne].
    rewrite filter_sorted_length in Hlen.
    constructor; [|by apply IH]. repeat split; assumption.
Qed.

(** X6. Whenever [_collect_version_data] returns, it returns one entry per
    version directory of [log_dir], in the sorted order of the listing,
    files skipped: the entry carries the alias of its directory and one
    frame per run directory that holds the metric, none of them empty. *)
Theorem collect_keeps_every_version (fs : FileSystem) (self : TensorBoardPlotter)
  (alpha_i : Q) (version_data : list VersionData) :
  _collect_version_data fs self alpha_i = inr version_data ->
  exists entries,
    fs (log_dir self) = Some entries
    /\ Forall2 (collected_from (metric self)) version_data
               (version_dirs (sorted entries)).
Proof.
  unfold _collect_version_data.
  destruct (fs (log_dir self)) as [entries|]; [|discriminate].
  intros H. exists entries. split; [reflexivity|].
  exact (collect_versions_shape _ _ _ _ H).
Qed.

Lemma existsb_filter_length {A : Type} (f : A -> bool) (l : list A) :
  existsb f l = (0 <? length (List.filter f l))%nat.
Proof.
  induction l as [|a l IH]; [reflexivity|]. cbn [existsb List.filter].
  destruct (f a); [reflexivity | exact IH].
Qed.

Lemma collected_has_data (metric : string) (version_data : list VersionData)
  (dirs : list (string * list (string * VersionChild))) :
  Forall2 (collected_from metric) version_data dirs ->
  existsb has_data version_data
  = existsb (fun dir => existsb (run_has_metric metric) (snd dir)) dirs.
Proof.
  induction 1 as [|v dir vd dirs (_ & Hlen & _) _ IH]; [reflexivity|].
  cbn [existsb]. rewrite IH. unfold has_data.
  by rewrite Hlen, <- existsb_filter_length.
Qed.

Lemma version_dirs_has_metric (metric : string) (entries : list (string * LogChild)) :
  existsb (fun dir => existsb (run_has_metric metric) (snd dir)) (version_dirs entries)
  = existsb (version_has_metric metric) entries.
Proof.
  unfold version_dirs.
  induction entries as [|[name [|children]] rest IH]; [reflexivity|..];
    rewrite omap_cons_eq; cbn [snd fst existsb]; rewrite <- IH; reflexivity.
Qed.

Lemma collect_versions_has_data (metric : string) (d : Q)
  (entries : list (string * LogChild)) (version_data : list VersionData) :
  collect_versions metric d (sorted entries) = inr version_data ->
  existsb has_data version_data = some_run_has_metric metric entries.
Proof.
  intros H. apply collect_versions_shape in H.
  rewrite (collected_has_data _ _ _ H), version_dirs_has_metric, existsb_sorted.
  reflexivity.
Qed.

(** ** An [x_axis] that names no column *)

Lemma column_unknown (df : DataFrame) (name : string) :
  known_column name = false -> column df name = inl KeyError.
Proof.
  unfold known_column, column. intros H.
  destruct (String.eqb name "wall_time"); [discriminate|].
  destruct (String.eqb name "step"); [discriminate|].
  destruct (String.eqb name "value"); [discriminate | reflexivity].
Qed.

Lemma existsb_has_data_false (version_data : list VersionData) :
  existsb has_data version_data = false ->
  Forall (fun v => run_dataframes v = []) version_data.
Proof.
  induction version_data as [|v rest IH]; [constructor|]. cbn [existsb].
  intros [Hv Hrest]%orb_false_elim. constructor; [|by apply IH].
  unfold has_data in Hv. by destruct (run_dataframes v).
Qed.

Lemma plot_versions_from_unknown_column (self : TensorBoardPlotter)
  (colors : ColorCycle) (version_data : list VersionData) :
  known_column (x_axis self) = false ->
  existsb has_data version_data = true ->
  forall idx st, plot_versions_from self colors idx version_data st = inl KeyError.
Proof.
  intros Hx. induction version_data as [|v rest IH]; [discriminate|].
  cbn [existsb plot_versions_from]. intros Hd idx st. unfold has_data at 1 in Hd.
  destruct (run_dataframes v) as [|df dfs] eqn:Ev.
  - cbn [plot_runs bind length Nat.ltb Nat.leb]. apply IH. exact Hd.
  - cbn [plot_runs]. by rewrite (column_unknown df _ Hx).
Qed.

(** X7. With a [log_dir] that can be listed and [alpha] in [0, 1], an
    [x_axis] that names no column of the samples makes [plot] raise
    [KeyError] while the lines are drawn, after the figure was created,
    whenever some run directory holds the metric. *)
Theorem unknown_x_axis_aborts_while_drawing (fs : FileSystem)
  (colors : ColorCycle) (self : TensorBoardPlotter)
  (entries : list (string * LogChild)) :
  fs (log_dir self) = Some entries ->
  0 <= alpha self <= 1 ->
  known_column (x_axis self) = false ->
  some_run_has_metric (metric self) entries = true ->
  plot fs colors self = AbortedWhileDrawing KeyError.
Proof.
  intros Hfs Ha Hx Hm. unfold plot, _collect_version_data. rewrite Hfs.
  destruct (collect_versions_ok (metric self) _ (sorted entries)
              (inverted_alpha_range _ Ha)) as [vd Hvd].
  rewrite Hvd. apply collect_versions_has_data in Hvd. rewrite Hm in Hvd.
  unfold _plot_versions.
  by rewrite (plot_versions_from_unknown_column self colors vd Hx Hvd).
Qed.

(** ** A directory without the metric *)

Lemma collect_runs_no_metric (metric : string) (d : Q)
  (children : list (string * VersionChild)) :
  existsb (run_has_metric metric) children = false ->
  collect_runs metric d children = inr [].
Proof.
  induction children as [|[name [content|ea]] rest IH]; cbn [existsb collect_runs];
    [reflexivity | exact IH |].
  unfold run_has_metric at 1, _extract_and_smooth_metrics. cbn [snd].
  destruct (assoc metric ea); [discriminate|].
  cbn [orb bind ret df_empty]. intros H. by rewrite (IH H).
Qed.

Lemma collect_versions_no_metric (metric : string) (d : Q)
  (entries : list (string * LogChild)) :
  existsb (version_has_metric metric) entries = false ->
  exists version_data,
    collect_versions metric d entries = inr version_data
    /\ Forall (fun v => run_dataframes v = []) version_data
    /\ length version_data = length (version_dirs entries).
Proof.
  unfold version_dirs.
  induction entries as [|[name [|children]] rest IH];
    cbn [existsb collect_versions]; rewrite ?omap_cons_eq; cbn [snd fst].
  - exists []. repeat split. constructor.
  - exact IH.
  - unfold version_has_metric at 1. cbn [snd].
    intros [Hc Hrest]%orb_false_elim.
    rewrite <- (existsb_sorted _ children) in Hc.
    rewrite (collect_runs_no_metric metric d _ Hc). cbn [bind].
    destruct (IH Hrest) as (vd & -> & Hall & Hlen). cbn [bind].
    eexists. split; [reflexivity|]. split; [by constructor|].
    cbn [length]. by rewrite Hlen.
Qed.

Lemma version_dirs_sorted_length (entries : list (string * LogChild)) :
  length (version_dirs (sorted entries)) = length (version_dirs entries).
Proof.
  assert (Hf : forall l : list (string * LogChild),
             length (version_dirs l)
             = length (List.filter (fun e => match snd e with
                                             | VersionDir _ => true
                                             | OtherFile => false
                                             end) l)).
  { unfold version_dirs. induction l as [|[name [|children]] rest IH];
      [reflexivity|..]; rewrite omap_cons_eq; cbn [snd List.filter length];
      by rewrite IH. }
  by rewrite !Hf, filter_sorted_length.
Qed.

Lemma all_nil_repeat {A : Type} (l : list (list A)) :
  Forall (fun x => x = []) l -> l = repeat [] (length l).
Proof.
  induction 1 as [|x l -> _ IH]; [reflexivity|]. cbn [length repeat]. by rewrite <- IH.
Qed.

(** X8. When no run directory below [log_dir] holds the metric, [plot]
    raises nothing, whatever [alpha] and [x_axis] are: the figure shown has
    no line and no legend entry, and the two collections hold one empty
    entry per version directory. *)
Theorem plot_without_metric_is_empty (fs : FileSystem) (colors : ColorCycle)
  (self : TensorBoardPlotter) (entries : list (string * LogChild)) :
  fs (log_dir self) = Some entries ->
  some_run_has_metric (metric self) entries = false ->
  exists fig,
    plot fs colors self = Shown fig
    /\ fig_lines fig = []
    /\ legend_lines_labels fig = []
    /\ fig_main fig = repeat [] (length (version_dirs entries))
    /\ fig_runs fig = repeat [] (length (version_dirs entries)).
Proof.
  intros Hfs Hm. unfold plot, _collect_version_data. rewrite Hfs.
  unfold some_run_has_metric in Hm. rewrite <- existsb_sorted in Hm.
  destruct (collect_versions_no_metric (metric self)
              (inverted_alpha (alpha self)) _ Hm) as (vd & -> & Hall & Hlen).
  rewrite version_dirs_sorted_length in Hlen.
  destruct (plot_versions_from_empty self colors vd Hall 0%nat
              {| ps_ax := []; line_collections_main := [];
                 line_collections_runs := []; legend_lines := [] |})
    as (st & Hst & Hax & Hleg).
  unfold _plot_versions. rewrite Hst. cbn [ps_ax legend_lines] in Hax, Hleg.
  eexists. split; [reflexivity|].
  cbn [fig_lines legend_lines_labels fig_main fig_runs].
  rewrite Hax, Hleg. split; [reflexivity|]. split; [reflexivity|].
  pose proof (plot_versions_drawn self colors vd st Hst) as (Hlm & Hlr & _ & Hdr).
  rewrite <- Hlen.
  assert (Hempty : forall k v ms rs,
            vd !! k = Some v -> line_collections_main st !! k = Some ms ->
            line_collections_runs st !! k = Some rs -> ms = [] /\ rs = []).
  { intros k v ms rs Hv Hms Hrs.
    destruct (Hdr k v ms rs Hv Hms Hrs) as (_ & Hr & Hmn).
    rewrite Forall_lookup in Hall. pose proof (Hall k v Hv) as Hv0.
    unfold has_data in Hmn. rewrite Hv0 in Hmn, Hr. cbn in Hmn.
    split; [exact Hmn|]. destruct (plot_mean_only self); [exact Hr|].
    by apply Forall2_nil_inv_r in Hr. }
  split.
  - rewrite <- Hlm. apply all_nil_repeat, Forall_lookup. intros k ms Hms.
    pose proof (lookup_lt_Some _ _ _ Hms) as Hlt.
    destruct (lookup_lt_is_Some_2 vd k ltac:(lia)) as [v Hv].
    destruct (lookup_lt_is_Some_2 (line_collections_runs st) k ltac:(lia)) as [rs Hrs].
    exact (proj1 (Hempty k v ms rs Hv Hms Hrs)).
  - rewrite <- Hlr. apply all_nil_repeat, Forall_lookup. intros k rs Hrs.
    pose proof (lookup_lt_Some _ _ _ Hrs) as Hlt.
    destruct (lookup_lt_is_Some_2 vd k ltac:(lia)) as [v Hv].
    destruct (lookup_lt_is_Some_2 (line_collections_main st) k ltac:(lia)) as [ms Hms].
    exact (proj2 (Hempty k v ms rs Hv Hms Hrs)).
Qed.

(** ** Clicks change display intensities only *)

Lemma same_but_alpha_refl (l : Line2D) : same_but_alpha l l.
Proof. repeat split. Qed.

Lemma same_but_alpha_trans (l1 l2 l3 : Line2D) :
  same_but_alpha l1 l2 -> same_but_alpha l2 l3 -> same_but_alpha l1 l3.
Proof.
  intros (A1 & A2 & A3 & A4 & A5) (B1 & B2 & B3 & B4 & B5).
  repeat split; congruence.
Qed.

Lemma alter_toggle_same (shown : Q) (h : nat) (ax : Axes) :
  Forall2 same_but_alpha ax (alter (toggle_alpha shown) h ax).
Proof.
  revert h. induction ax as [|l ax IH]; intros h; [constructor|].
  destruct h as [|h]; cbn.
  - constructor; [repeat split | apply Forall2_same_length_lookup].
    split; [reflexivity|]. intros i x y Hx Hy. rewrite Hx in Hy.
    injection Hy as <-. apply same_but_alpha_refl.
  - constructor; [apply same_but_alpha_refl | apply IH].
Qed.

Lemma toggle_lines_same (shown : Q) (hs : list nat) (ax : Axes) :
  Forall2 same_but_alpha ax (toggle_lines shown hs ax).
Proof.
  unfold toggle_lines. revert ax. induction hs as [|h hs IH]; intros ax; cbn [fold_left].
  - apply Forall2_same_length_lookup. split; [reflexivity|].
    intros i x y Hx Hy. rewrite Hx in Hy. injection Hy as <-.
    apply same_but_alpha_refl.
  - eapply Forall2_trans; [|apply alter_toggle_same | apply IH].
    intros x y z. apply same_but_alpha_trans.
Qed.

(** X9. Whatever the figure and the label, a click that returns leaves the
    legend and the collections as they were and keeps the number of lines;
    of every line it keeps the data, the label, the colour and the width: at
    most display intensities change. *)
Theorem click_changes_intensity_only (fig fig' : Figure) (artist_label : string) :
  on_legend_click fig artist_label = inr fig' ->
  same_layout fig fig'
  /\ Forall2 same_but_alpha (fig_lines fig) (fig_lines fig').
Proof.
  unfold on_legend_click.
  destruct (contains artist_label (legend_lines_labels fig)).
  2:{ intros [= <-]. split; [repeat split|].
      apply Forall2_same_length_lookup. split; [reflexivity|].
      intros i x y Hx Hy. rewrite Hx in Hy. injection Hy as <-.
      apply same_but_alpha_refl. }
  destruct (index_of artist_label (legend_lines_labels fig)) as [i|]; [|discriminate].
  destruct (fig_main fig !! i) as [ms|]; [|discriminate].
  destruct (match fig_runs fig with
            | [] => ret []
            | _ :: _ => match fig_runs fig !! i with
                        | None => raise IndexError
                        | Some r => ret r
                        end
            end) as [e|rs]; [discriminate|].
  cbn [bind]. intros [= <-]. split; [repeat split|].
  cbn [fig_lines].
  eapply Forall2_trans; [|apply (toggle_lines_same 1 ms) | apply toggle_lines_same].
  intros x y z. apply same_but_alpha_trans.
Qed.

(** ** The display state after a session of clicks *)

Lemma elem_of_concat_lookup {A : Type} (L : list (list A)) (i : nat) (a : list A)
  (x : A) :
  L !! i = Some a -> x ∈ a -> x ∈ concat L.
Proof.
  intros Hi Hx. apply list_elem_of_In, in_concat. exists a.
  split; apply list_elem_of_In; [|exact Hx]. by eapply list_elem_of_lookup_2.
Qed.

Lemma concat_NoDup_lookup {A : Type} (L : list (list A)) (i : nat) (a : list A) :
  NoDup (concat L) -> L !! i = Some a -> NoDup a.
Proof.
  revert i. induction L as [|c L IH]; intros i Hnd Hi; [discriminate|].
  cbn [concat] in Hnd. apply NoDup_app in Hnd as (Hc & _ & HL).
  destruct i as [|i]; [by injection Hi as <- | by apply (IH i)].
Qed.

Lemma concat_NoDup_disjoint {A : Type} (L : list (list A)) (i j : nat)
  (a b : list A) (x : A) :
  NoDup (concat L) -> i <> j -> L !! i = Some a -> L !! j = Some b ->
  x ∈ a -> x ∉ b.
Proof.
  revert i j. induction L as [|c L IH]; intros i j Hnd Hij Hi Hj Ha Hb;
    [discriminate|].
  cbn [concat] in Hnd. apply NoDup_app in Hnd as (_ & Hdis & HL).
  destruct i as [|i], j as [|j]; [done | | |].
  - injection Hi as <-. apply (Hdis x Ha). by apply (elem_of_concat_lookup L j b).
  - injection Hj as <-. apply (Hdis x Hb). by apply (elem_of_concat_lookup L i a).
  - apply (IH i j HL ltac:(congruence) Hi Hj Ha Hb).
Qed.

Lemma toggle_alpha_flips (shown : Q) (b : bool) (l : Line2D) :
  0 < shown ->
  line_alpha l = (if b then shown else 0) ->
  line_alpha (toggle_alpha shown l) = (if negb b then shown else 0).
Proof.
  intros Hpos Ha. unfold toggle_alpha, Qltb. cbn [line_alpha]. rewrite Ha.
  destruct b; cbn [negb].
  - destruct (Qle_bool shown 0) eqn:E; [|reflexivity].
    apply Qle_bool_iff in E. lra.
  - reflexivity.
Qed.

Lemma click_step (fig : Figure) (vis : list bool) (artist_label : string) :
  well_laid_out fig ->
  length vis = length (fig_main fig) ->
  shown_as fig vis ->
  exists fig',
    on_legend_click fig artist_label = inr fig'
    /\ same_layout fig fig'
    /\ shown_as fig' (visibility (legend_lines_labels fig) [artist_label] vis).
Proof.
  intros (Hlen & Hnd & Hleg) Hvis Hshown. unfold on_legend_click. cbn [visibility].
  destruct (contains artist_label (legend_lines_labels fig)) eqn:Hc.
  2:{ exists fig. split; [reflexivity|]. split; [repeat split|].
      destruct (index_of artist_label (legend_lines_labels fig)) as [i|] eqn:Hi;
        [|exact Hshown].
      apply index_of_lookup, list_elem_of_lookup_2, contains_elem_of in Hi.
      congruence. }
  apply contains_elem_of in Hc. destruct (index_of_elem_of _ _ Hc) as [i Hi].
  rewrite Hi.
  pose proof (lookup_lt_Some _ _ _ (index_of_lookup _ _ _ Hi)) as Hlt.
  destruct (lookup_lt_is_Some_2 (fig_main fig) i ltac:(lia)) as [ms Hms].
  destruct (lookup_lt_is_Some_2 (fig_runs fig) i ltac:(lia)) as [rs Hrs].
  destruct (lookup_lt_is_Some_2 vis i ltac:(lia)) as [b Hb].
  rewrite Hms, (run_lines_at _ _ _ Hrs). cbn [bind].
  eexists. split; [reflexivity|]. split; [repeat split|].
  assert (Hzip : zip_with app (fig_runs fig) (fig_main fig) !! i = Some (rs ++ ms)).
  { rewrite lookup_zip_with, Hrs, Hms. reflexivity. }
  pose proof (concat_NoDup_lookup _ _ _ Hnd Hzip) as Hndi.
  apply NoDup_app in Hndi as (Hndr & Hdis & Hndm).
  destruct (Hshown i ms rs b Hms Hrs Hb) as [[_ Hma] [_ Hra]].
  rewrite Forall_forall in Hma, Hra.
  intros j ms' rs' b' Hms' Hrs' Hb'. cbn [fig_main fig_runs fig_lines] in *.
  destruct (decide (j = i)) as [->|Hne].
  - rewrite Hms in Hms'. rewrite Hrs in Hrs'.
    injection Hms' as <-. injection Hrs' as <-.
    rewrite list_lookup_alter_eq, Hb in Hb'. cbn in Hb'. injection Hb' as <-.
    split; (split; [assumption|]); apply Forall_forall; intros h Hh.
    + destruct (Hma h Hh) as (l & Hl & Ha).
      exists (toggle_alpha 1 l). split.
      * rewrite !toggle_lines_lookup by assumption.
        rewrite decide_False by (intros Hr; exact (Hdis h Hr Hh)).
        rewrite decide_True by exact Hh. by rewrite Hl.
      * apply (toggle_alpha_flips 1 b l); [reflexivity | exact Ha].
    + destruct (Hra h Hh) as (l & Hl & Ha).
      exists (toggle_alpha (3 # 10) l). split.
      * rewrite !toggle_lines_lookup by assumption.
        rewrite decide_True by exact Hh.
        rewrite decide_False by exact (Hdis h Hh). by rewrite Hl.
      * apply (toggle_alpha_flips (3 # 10) b l); [reflexivity | exact Ha].
  - rewrite list_lookup_alter_ne in Hb' by congruence.
    assert (Hzip' : zip_with app (fig_runs fig) (fig_main fig) !! j = Some (rs' ++ ms')).
    { rewrite lookup_zip_with, Hrs', Hms'. reflexivity. }
    assert (Hfar : forall h, h ∈ rs' ++ ms' ->
              toggle_lines (3 # 10) rs (toggle_lines 1 ms (fig_lines fig)) !! h
              = fig_lines fig !! h).
    { intros h Hh.
      pose proof (concat_NoDup_disjoint _ j i _ _ h Hnd Hne Hzip' Hzip Hh) as Hnot.
      rewrite !toggle_lines_lookup by assumption.
      rewrite decide_False by (intros Hr; apply Hnot, elem_of_app; by left).
      rewrite decide_False by (intros Hm; apply Hnot, elem_of_app; by right).
      reflexivity. }
    destruct (Hshown j ms' rs' b' Hms' Hrs' Hb') as [[Hn1 Hm1] [Hn2 Hr1]].
    rewrite Forall_forall in Hm1, Hr1.
    split; (split; [assumption|]); apply Forall_forall; intros h Hh.
    + rewrite Hfar by (apply elem_of_app; by right). by apply Hm1.
    + rewrite Hfar by (apply elem_of_app; by left). by apply Hr1.
Qed.

Lemma visibility_length (legend artist_labels : list string) (vis : list bool) :
  length (visibility legend artist_labels vis) = length vis.
Proof.
  revert vis. induction artist_labels as [|a rest IH]; intros vis; [reflexivity|].
  cbn [visibility]. rewrite IH. destruct (index_of a legend); [|reflexivity].
  apply length_alter.
Qed.

Lemma clicks_track (artist_labels : list string) :
  forall (fig : Figure) (vis : list bool),
    well_laid_out fig ->
    length vis = length (fig_main fig) ->
    shown_as fig vis ->
    exists fig',
      clicks artist_labels fig = inr fig'
      /\ same_layout fig fig'
      /\ shown_as fig' (visibility (legend_lines_labels fig) artist_labels vis).
Proof.
  induction artist_labels as [|a rest IH]; intros fig vis Hwl Hlen Hshown.
  - exists fig. split; [reflexivity|]. split; [repeat split | exact Hshown].
  - destruct (click_step fig vis a Hwl Hlen Hshown)
      as (fig1 & Hclick & (Hl1 & Hm1 & Hr1) & Hshown1).
    cbn [clicks]. rewrite Hclick. cbn [bind].
    destruct (IH fig1 (visibility (legend_lines_labels fig) [a] vis))
      as (fig' & Hclicks & (Hl2 & Hm2 & Hr2) & Hshown2).
    + destruct Hwl as (H1 & H2 & H3). unfold well_laid_out.
      by rewrite Hl1, Hm1, Hr1.
    + by rewrite visibility_length, Hm1.
    + exact Hshown1.
    + exists fig'. split; [exact Hclicks|]. split.
      * unfold same_layout. by rewrite Hl2, Hm2, Hr2.
      * rewrite Hl1 in Hshown2. exact Hshown2.
Qed.

Lemma plot_shown_well_laid_out (fs : FileSystem) (colors : ColorCycle)
  (self : TensorBoardPlotter) (fig : Figure) :
  plot fs colors self = Shown fig ->
  well_laid_out fig
  /\ shown_as fig (repeat true (length (fig_main fig))).
Proof.
  intros Hplot. pose proof (plot_shown_inv _ _ _ _ Hplot) as (Hm & Hr & Hlen & Hleg).
  split.
  - split; [exact Hlen|]. split; [|exact Hleg].
    unfold plot in Hplot.
    destruct (_collect_version_data fs self (inverted_alpha (alpha self)))
      as [e|vd]; [discriminate|].
    destruct (_plot_versions self colors [] vd) as [e|st] eqn:E; [discriminate|].
    injection Hplot as <-. cbn [fig_runs fig_main].
    apply plot_versions_drawn in E as (_ & _ & -> & _). apply NoDup_seq.
  - intros i ms rs b Hms Hrs Hb.
    apply list_elem_of_lookup_2, list_elem_of_In, repeat_spec in Hb. subst b.
    rewrite Forall_lookup in Hm, Hr. split; [by apply (Hm i) | by apply (Hr i)].
Qed.

Lemma visibility_beyond_legend (legend artist_labels : list string)
  (vis : list bool) (i : nat) :
  (length legend <= i)%nat ->
  visibility legend artist_labels vis !! i = vis !! i.
Proof.
  intros Hi. revert vis.
  induction artist_labels as [|a rest IH]; intros vis; [reflexivity|].
  cbn [visibility]. rewrite IH.
  destruct (index_of a legend) as [k|] eqn:Hk; [|reflexivity].
  apply index_of_lookup, lookup_lt_Some in Hk.
  apply list_lookup_alter_ne. lia.
Qed.

(** X10. On the figure [plot] shows, a session of pick events never raises
    and never changes the legend or the collections, and the display state
    it leaves is the one of the flags: every position starts shown, each
    event whose label is in the legend flips the position of that label in
    the legend, and at every position the mean line and the run lines are
    shown together, opaque and dim, or hidden together. *)
Theorem clicks_track_visibility (fs : FileSystem) (colors : ColorCycle)
  (self : TensorBoardPlotter) (fig : Figure) (artist_labels : list string) :
  plot fs colors self = Shown fig ->
  exists fig',
    clicks artist_labels fig = inr fig'
    /\ same_layout fig fig'
    /\ shown_as fig'
         (visibility (legend_lines_labels fig) artist_labels
            (repeat true (length (fig_main fig)))).
Proof.
  intros Hplot. apply plot_shown_well_laid_out in Hplot as [Hwl Hshown].
  apply clicks_track; [exact Hwl | apply repeat_length | exact Hshown].
Qed.

(** X11. The legend position of a label indexes the collections, so a
    position of the collections at or beyond the length of the legend is
    out of reach of every click: whatever the session, its mean line stays
    opaque and its run lines stay dim. *)
Theorem lines_beyond_legend_stay_shown (fs : FileSystem) (colors : ColorCycle)
  (self : TensorBoardPlotter) (fig fig' : Figure) (artist_labels : list string)
  (i : nat) (ms rs : list nat) :
  plot fs colors self = Shown fig ->
  clicks artist_labels fig = inr fig' ->
  (length (legend_lines_labels fig) <= i)%nat ->
  fig_main fig !! i = Some ms ->
  fig_runs fig !! i = Some rs ->
  handles_ok 1 (fig_lines fig') ms /\ handles_ok (3 # 10) (fig_lines fig') rs.
Proof.
  intros Hplot Hclicks Hi Hms Hrs.
  apply plot_shown_well_laid_out in Hplot as [Hwl Hshown].
  destruct (clicks_track artist_labels fig (repeat true (length (fig_main fig)))
              Hwl (repeat_length _ _) Hshown)
    as (fig2 & Hc2 & (_ & Hm2 & Hr2) & Hshown2).
  rewrite Hclicks in Hc2. injection Hc2 as <-.
  apply (Hshown2 i ms rs true); [by rewrite Hm2 | by rewrite Hr2 |].
  rewrite visibility_beyond_legend by exact Hi.
  apply lookup_lt_Some in Hms. clear -Hms.
  revert i Hms. induction (fig_main fig) as [|m l IH]; intros i Hi;
    cbn [length repeat] in *; [lia|].
  destruct i as [|i]; [reflexivity|]. apply IH. lia.
Qed.

(** ** The order of the listing does not matter *)

Lemma string_leb_cons (c1 c2 : ascii) (s1 s2 : string) :
  String.leb (String c1 s1) (String c2 s2) = true
  <-> (N_of_ascii c1 < N_of_ascii c2)%N \/ (c1 = c2 /\ String.leb s1 s2 = true).
Proof.
  unfold String.leb. cbn [String.compare]. unfold Ascii.compare.
  destruct (N.compare_spec (N_of_ascii c1) (N_of_ascii c2)) as [Heq|Hlt|Hgt].
  - assert (c1 = c2) as ->
      by (rewrite <- (ascii_N_embedding c1), <- (ascii_N_embedding c2); by rewrite Heq).
    split; [intros H; right; by split | intros [H|[_ H]]; [lia | exact H]].
  - split; [intros _; by left | reflexivity].
  - split; [discriminate|]. intros [H|[-> _]]; lia.
Qed.

Lemma string_leb_trans (s1 s2 s3 : string) :
  String.leb s1 s2 = true -> String.leb s2 s3 = true -> String.leb s1 s3 = true.
Proof.
  revert s2 s3. induction s1 as [|c1 s1 IH]; intros [|c2 s2] [|c3 s3] H12 H23;
    try reflexivity; try discriminate.
  apply string_leb_cons in H12, H23. apply string_leb_cons.
  destruct H12 as [H12|[-> H12]], H23 as [H23|[-> H23]].
  - left. lia.
  - by left.
  - by left.
  - right. split; [reflexivity | by apply (IH s2)].
Qed.

Lemma string_leb_false (s1 s2 : string) :
  String.leb s1 s2 = false -> String.leb s2 s1 = true.
Proof.
  intros H. destruct (String.leb_total s1 s2) as [H'|H']; [congruence | exact H'].
Qed.

Lemma insert_sorted_comm {A : Type} (a b : string * A) (l : list (string * A)) :
  fst a <> fst b ->
  insert_sorted a (insert_sorted b l) = insert_sorted b (insert_sorted a l).
Proof.
  intros Hab. induction l as [|c l IH]; cbn [insert_sorted].
  - destruct (String.leb (fst a) (fst b)) eqn:E1, (String.leb (fst b) (fst a)) eqn:E2;
      try reflexivity.
    + exfalso. apply Hab. by apply String.leb_antisym.
    + apply string_leb_false in E1. congruence.
  - destruct (String.leb (fst b) (fst c)) eqn:Ebc, (String.leb (fst a) (fst c)) eqn:Eac;
      cbn [insert_sorted]; rewrite ?Ebc, ?Eac.
    + destruct (String.leb (fst a) (fst b)) eqn:E1, (String.leb (fst b) (fst a)) eqn:E2;
        try reflexivity.
      * exfalso. apply Hab. by apply String.leb_antisym.
      * apply string_leb_false in E1. congruence.
    + destruct (String.leb (fst a) (fst b)) eqn:E1.
      * rewrite (string_leb_trans _ _ _ E1 Ebc) in Eac. discriminate.
      * reflexivity.
    + destruct (String.leb (fst b) (fst a)) eqn:E2.
      * rewrite (string_leb_trans _ _ _ E2 Eac) in Ebc. discriminate.
      * reflexivity.
    + by rewrite IH.
Qed.

Lemma sorted_permutation {A : Type} (l1 l2 : list (string * A)) :
  Permutation l1 l2 -> NoDup (map fst l1) -> sorted l1 = sorted l2.
Proof.
  unfold sorted. induction 1 as [|x l l' Hp IH|x y l|l l' l'' Hp1 IH1 Hp2 IH2];
    intros Hnd; cbn [fold_right map] in *.
  - reflexivity.
  - apply NoDup_cons in Hnd as [_ Hnd]. by rewrite IH.
  - apply insert_sorted_comm. apply NoDup_cons in Hnd as [Hy _].
    intros Heq. apply Hy. rewrite <- Heq. by left.
  - rewrite IH1 by exact Hnd. apply IH2.
    assert (Hm : map fst l ≡ₚ map fst l') by (by apply Permutation_map).
    by rewrite <- Hm.
Qed.

(** X12. [_collect_version_data] does not depend on the order in which
    [os.listdir] returns the names: two listings of [log_dir] that are
    permutations of each other give the same versions in the same order,
    and so do two listings of a version directory for its runs. *)
Theorem collect_ignores_listing_order (fs1 fs2 : FileSystem)
  (self : TensorBoardPlotter) (alpha_i : Q)
  (entries1 entries2 : list (string * LogChild)) :
  fs1 (log_dir self) = Some entries1 ->
  fs2 (log_dir self) = Some entries2 ->
  Permutation entries1 entries2 ->
  NoDup (map fst entries1) ->
  _collect_version_data fs1 self alpha_i = _collect_version_data fs2 self alpha_i
  /\ forall children1 children2 : list (string * VersionChild),
       Permutation children1 children2 ->
       NoDup (map fst children1) ->
       collect_runs (metric self) alpha_i (sorted children1)
       = collect_runs (metric self) alpha_i (sorted children2).
Proof.
  intros H1 H2 Hp Hnd. split.
  - unfold _collect_version_data. rewrite H1, H2.
    by rewrite (sorted_permutation _ _ Hp Hnd).
  - intros c1 c2 Hpc Hndc. by rewrite (sorted_permutation _ _ Hpc Hndc).
Qed.

Lemma insert_sorted_permutation {A : Type} (e : string * A) (l : list (string * A)) :
  Permutation (insert_sorted e l) (e :: l).
Proof.
  induction l as [|e' l IH]; cbn [insert_sorted]; [reflexivity|].
  destruct (String.leb (fst e) (fst e')); [reflexivity|].
  rewrite IH. apply perm_swap.
Qed.

Lemma insert_sorted_ordered {A : Type} (e : string * A) (l : list (string * A)) :
  StronglySorted name_le l -> StronglySorted name_le (insert_sorted e l).
Proof.
  induction 1 as [|e' l Hs IH Hall]; cbn [insert_sorted].
  - constructor; constructor.
  - destruct (String.leb (fst e) (fst e')) eqn:E.
    + constructor; [by constructor|]. constructor; [exact E|].
      eapply Forall_impl; [exact Hall|]. intros x Hx.
      exact (string_leb_trans _ _ _ E Hx).
    + constructor; [exact IH|].
      rewrite (insert_sorted_permutation e l). constructor; [|exact Hall].
      by apply string_leb_false.
Qed.

(** X13. [sorted] returns the entries of the listing, each once, by
    increasing name: the loops of [_collect_version_data] visit versions
    and runs in increasing code-point order of their folder names. *)
Theorem sorted_orders_names {A : Type} (l : list (string * A)) :
  Permutation (sorted l) l /\ StronglySorted name_le (sorted l).
Proof.
  unfold sorted. induction l as [|e l [IHp IHs]]; cbn [fold_right].
  - split; [reflexivity | constructor].
  - split; [|by apply insert_sorted_ordered].
    rewrite insert_sorted_permutation. by constructor.
Qed.

(** ** More on the smoothing recurrence *)



Lemma result_inr_inj {A : Type} (a b : A) : @inr exn A a = inr b -> a = b.
Proof. congruence. Qed.

Lemma extract_valid_frame (metric : string) (ea : Scalars) (d : Q)
  (series : ScalarSeries) :
  assoc metric ea = Some series ->
  0 < d <= 1 ->
  _extract_and_smooth_metrics metric ea d
  = inr (set_value_column (events series)
           (value (first_event series)
            :: map fst (ewm_states (1 - d) 1 (value (first_event series), 1)
                          (map value (more_events series))))).
Proof.
  intros Hs Hd. by rewrite (extract_present _ _ _ _ Hs), (ewm_mean_valid d _ Hd).
Qed.


Lemma ewm_states_prefix (q nw : Q) (l1 l2 : list Q) :
  forall st, take (length l1) (ewm_states q nw st (l1 ++ l2)) = ewm_states q nw st l1.
Proof.
  induction l1 as [|v l1 IH]; intros st; [reflexivity|].
  cbn [app ewm_states length take]. by rewrite IH.
Qed.

Lemma set_value_column_take (df : DataFrame) (vs : list Q) (n : nat) :
  take n (set_value_column df vs) = set_value_column (take n df) (take n vs).
Proof.
  unfold set_value_column. revert df vs.
  induction n as [|n IH]; intros [|r df] [|v vs]; try reflexivity.
  cbn [take zip_with]. by rewrite IH.
Qed.

(** X15. Smoothing is causal: when the events of one run are the first
    events of another, for the same decay factor, the smoothed frame of the
    first is the beginning of the smoothed frame of the second.  Samples
    recorded later never change the smoothed values before them. *)
Theorem smoothing_is_causal (metric : string) (ea1 ea2 : Scalars) (d : Q)
  (s1 s2 : ScalarSeries) (later : list ScalarEvent) (df2 : DataFrame) :
  assoc metric ea1 = Some s1 ->
  assoc metric ea2 = Some s2 ->
  events s2 = events s1 ++ later ->
  _extract_and_smooth_metrics metric ea2 d = inr df2 ->
  _extract_and_smooth_metrics metric ea1 d = inr (take (length (events s1)) df2).
Proof.
  intros H1 H2 Hev Hdf2.
  assert (Hd : 0 < d <= 1).
  { destruct (Qlt_le_dec 0 d) as [H0|H0], (Qlt_le_dec 1 d) as [Hgt|Hle];
      try (split; assumption);
      rewrite (extract_present _ _ _ _ H2), ewm_mean_invalid in Hdf2;
      try discriminate; intros [? ?]; lra. }
  rewrite (extract_valid_frame _ _ _ _ H2 Hd) in Hdf2.
  apply result_inr_inj in Hdf2. subst df2.
  rewrite (extract_valid_frame _ _ _ _ H1 Hd). f_equal.
  pose proof Hev as Hev'. unfold events in Hev'. cbn [app] in Hev'.
  injection Hev' as Hf Hm.
  rewrite set_value_column_take, Hev, take_app_length. f_equal.
  unfold events. cbn [length take]. rewrite Hf, Hm, map_app. f_equal.
  rewrite firstn_map, <- (length_map value (more_events s1)).
  by rewrite ewm_states_prefix.
Qed.

(** ** The alias of a version *)






















(** ** The theorems above at concrete inputs *)


Lemma plot_versions_handles_in_order_witness :
  exists st,
    _plot_versions (plotter_with_alpha 0) default_colors [] sample_versions = inr st
    /\ concat (zip_with app (line_collections_runs st) (line_collections_main st))
       = seq 0 (length (ps_ax st)).
Proof.
  destruct (_plot_versions (plotter_with_alpha 0) default_colors [] sample_versions)
    as [e|st] eqn:E; [vm_compute in E; discriminate|].
  exists st. split; [reflexivity|].
  exact (proj2 (proj2 (plot_versions_handles_in_order _ _ _ st E))).
Defined.

Lemma plot_versions_line_count_witness :
  exists st,
    _plot_versions plotter_mean_only default_colors [] sample_versions = inr st
    /\ length (ps_ax st) = 1%nat
    /\ length (legend_lines st) = 1%nat.
Proof.
  destruct (_plot_versions plotter_mean_only default_colors [] sample_versions)
    as [e|st] eqn:E; [vm_compute in E; discriminate|].
  exists st. split; [reflexivity|].
  destruct (plot_versions_line_count _ _ _ st E) as (H1 & H2 & _).
  split; [exact H1 | exact H2].
Defined.

Lemma mean_line_x_is_last_run_witness :
  exists st h l,
    _plot_versions (plotter_with_alpha 0) default_colors [] sample_versions = inr st
    /\ line_collections_main st !! 1%nat = Some [h]
    /\ ps_ax st !! h = Some l
    /\ column (frame_of [1; 1]) "step" = inr (xdata l)
    /\ length (ydata l) = length (xdata l).
Proof.
  destruct (_plot_versions (plotter_with_alpha 0) default_colors [] sample_versions)
    as [e|st] eqn:E; [vm_compute in E; discriminate|].
  destruct (mean_line_x_is_last_run _ _ _ st 1 _ (frame_of [1; 1]) E eq_refl eq_refl)
    as (h & l & H1 & H2 & H3 & H4).
  exists st, h, l. split; [reflexivity|].
  split; [exact H1|]. split; [exact H2|]. split; [exact H3 | exact H4].
Defined.

Lemma single_run_mean_line_witness :
  exists st h l,
    _plot_versions (plotter_with_alpha 0) default_colors []
      [{| alias := "s"; run_dataframes := [frame_of [4; 2; 3]] |}] = inr st
    /\ line_collections_main st !! 0%nat = Some [h]
    /\ ps_ax st !! h = Some l
    /\ Forall2 Qeq (ydata l) (value_column (frame_of [4; 2; 3])).
Proof.
  destruct (_plot_versions (plotter_with_alpha 0) default_colors []
              [{| alias := "s"; run_dataframes := [frame_of [4; 2; 3]] |}])
    as [e|st] eqn:E; [vm_compute in E; discriminate|].
  destruct (single_run_mean_line _ _ _ st 0 _ (frame_of [4; 2; 3]) E eq_refl eq_refl)
    as (h & l & H1 & H2 & _ & H4).
  exists st, h, l. split; [reflexivity|].
  split; [exact H1|]. split; [exact H2 | exact H4].
Defined.

Lemma collect_keeps_every_version_witness :
  exists version_data entries,
    _collect_version_data duplicate_alias_fs (plotter_with_alpha 0) 1
    = inr version_data
    /\ duplicate_alias_fs "logs" = Some entries
    /\ Forall2 (collected_from "loss") version_data (version_dirs (sorted entries)).
Proof.
  destruct (_collect_version_data duplicate_alias_fs (plotter_with_alpha 0) 1)
    as [e|vd] eqn:E; [vm_compute in E; discriminate|].
  destruct (collect_keeps_every_version _ _ _ vd E) as (entries & H1 & H2).
  exists vd, entries. split; [reflexivity|]. split; assumption.
Defined.

Lemma unknown_x_axis_aborts_while_drawing_witness :
  0 <= alpha plotter_by_epoch <= 1
  /\ known_column (x_axis plotter_by_epoch) = false
  /\ plot empty_first_fs default_colors plotter_by_epoch
     = AbortedWhileDrawing KeyError.
Proof.
  split; [split; discriminate|]. split; [reflexivity|].
  apply (unknown_x_axis_aborts_while_drawing empty_first_fs default_colors
           plotter_by_epoch _ eq_refl); [split; discriminate | reflexivity | reflexivity].
Defined.

Lemma plot_without_metric_is_empty_witness :
  exists fig,
    plot no_metric_fs default_colors plotter_by_epoch = Shown fig
    /\ fig_lines fig = [] /\ fig_main fig = [[]].
Proof.
  destruct (plot_without_metric_is_empty no_metric_fs default_colors
              plotter_by_epoch _ eq_refl eq_refl)
    as (fig & H1 & H2 & _ & H4 & _).
  exists fig. split; [exact H1|]. split; [exact H2 | exact H4].
Defined.

Lemma click_changes_intensity_only_witness :
  exists fig fig',
    plot duplicate_alias_fs default_colors (plotter_with_alpha 0) = Shown fig
    /\ on_legend_click fig "z" = inr fig'
    /\ same_layout fig fig'
    /\ Forall2 same_but_alpha (fig_lines fig) (fig_lines fig').
Proof.
  destruct (plot duplicate_alias_fs default_colors (plotter_with_alpha 0))
    as [e|e|fig] eqn:E; [vm_compute in E; discriminate..|].
  destruct (on_legend_click fig "z") as [e|fig'] eqn:Ec.
  { vm_compute in E. injection E as <-. vm_compute in Ec. discriminate. }
  exists fig, fig'. split; [reflexivity|]. split; [exact Ec|].
  apply (click_changes_intensity_only fig fig' "z"). exact Ec.
Defined.

Lemma clicks_track_visibility_witness :
  exists fig fig',
    plot duplicate_alias_fs default_colors (plotter_with_alpha 0) = Shown fig
    /\ clicks ["X"; "z"; "X"] fig = inr fig'
    /\ shown_as fig'
         (visibility (legend_lines_labels fig) ["X"; "z"; "X"]
            (repeat true (length (fig_main fig)))).
Proof.
  destruct (plot duplicate_alias_fs default_colors (plotter_with_alpha 0))
    as [e|e|fig] eqn:E; [vm_compute in E; discriminate..|].
  destruct (clicks_track_visibility _ _ _ fig ["X"; "z"; "X"] E)
    as (fig' & H1 & _ & H3).
  exists fig, fig'. split; [reflexivity|]. split; assumption.
Defined.

Lemma lines_beyond_legend_stay_shown_witness :
  exists fig fig',
    plot duplicate_alias_fs default_colors (plotter_with_alpha 0) = Shown fig
    /\ clicks ["X"; "z"; "nonexistent"] fig = inr fig'
    /\ (length (legend_lines_labels fig) <= 3)%nat
    /\ fig_main fig !! 3%nat = Some [5%nat]
    /\ fig_runs fig !! 3%nat = Some [4%nat]
    /\ handles_ok 1 (fig_lines fig') [5%nat]
    /\ handles_ok (3 # 10) (fig_lines fig') [4%nat].
Proof.
  eexists. eexists. split; [vm_compute; reflexivity|].
  split; [vm_compute; reflexivity|].
  split; [vm_compute; lia|]. split; [reflexivity|]. split; [reflexivity|].
  eapply (lines_beyond_legend_stay_shown duplicate_alias_fs default_colors
            (plotter_with_alpha 0)) with (artist_labels := ["X"; "z"; "nonexistent"])
                                         (i := 3%nat);
    [vm_compute; reflexivity | vm_compute; reflexivity | vm_compute; lia
    | reflexivity | reflexivity].
Defined.

Lemma collect_ignores_listing_order_witness :
  _collect_version_data empty_first_fs (plotter_with_alpha 0) 1
  = _collect_version_data empty_first_fs_reordered (plotter_with_alpha 0) 1.
Proof.
  refine (proj1 (collect_ignores_listing_order empty_first_fs empty_first_fs_reordered
                   (plotter_with_alpha 0) 1 _ _ eq_refl eq_refl _ _)).
  - apply perm_swap.
  - cbn [map fst]. apply NoDup_cons. split; [|apply NoDup_singleton].
    intros H. apply list_elem_of_singleton in H. discriminate.
Defined.


Lemma smoothing_is_causal_witness :
  exists df2,
    _extract_and_smooth_metrics "loss" loss_run (1 # 2) = inr df2
    /\ _extract_and_smooth_metrics "loss" [("loss", series_of 4 [2])] (1 # 2)
       = inr (take 2 df2).
Proof.
  eexists. split; [vm_compute; reflexivity|].
  apply (smoothing_is_causal "loss" [("loss", series_of 4 [2])] loss_run (1 # 2)
           (series_of 4 [2]) (series_of 4 [2; 3]) [sample 2 3]);
    [reflexivity | reflexivity | reflexivity | vm_compute; reflexivity].
Defined.


